(** * databases.backends.mysql: connection leasing, nested transactions, records

    A shallow embedding of [databases/backends/mysql.py].  The session and
    its transaction objects are mutable Python objects; they live in a
    [World] that is threaded through a state-and-exception monad.  The pool,
    the connections, the cursors and the query compiler belong to aiomysql
    and SQLAlchemy: every call into them is logged in the world's trace and
    its outcome (normal return or raise) is read from a [Driver].  The trace
    also records each entry of [acquire_connection] and
    [release_connection], so that the pairing of leases can be stated. *)

From Stdlib Require Import ZArith NArith List String Ascii Bool Lia.
From stdpp Require Import base gmap list strings.
Import ListNotations.

Local Open Scope Z_scope.
Local Open Scope string_scope.

(** ** Exceptions and results *)

Inductive exn : Type :=
| KeyError (key : string)         (* dict lookup of an absent key *)
| TypeError                       (* subscripting None *)
| IndexError                      (* tuple index out of range *)
| AttributeError (attr : string)  (* reading an attribute never assigned *)
| ConversionError                 (* a python_type constructor rejected the raw value *)
| DriverError (at_call : nat)     (* raised by the pool, a connection, a cursor or the compiler *)
| ReferenceError.                 (* a transaction reference that was never created *)

Inductive Result (A : Type) : Type :=
| Ok (a : A)
| Raise (e : exn).
Arguments Ok {A} a.
Arguments Raise {A} e.

Abbreviation Conn := nat.
Abbreviation Cursor := nat.
Abbreviation TxRef := nat.

Section Backend.

Context {Query Args Item Raw Value : Type}.

(** ** Record *)

(** A result column is a tuple whose first component [col[0]] is the key
    name and whose last component [col[-1]] is the SQL type; the type's
    [python_type] is called on the raw value.  [None] stands for the
    constructor raising. *)
Record Column : Type := {
  name : string;
  python_type : Raw -> option Value
}.

Definition enumerate {A} (l : list A) : list (nat * A) :=
  zip (seq 0 (length l)) l.

(** The dict comprehension [{col[0]: (idx, col) for idx, col in enumerate(cols)}]:
    entries are stored in iteration order, a later one replacing an earlier
    one with the same key. *)
Definition column_map (cols : list Column) : gmap string (nat * Column) :=
  foldl (fun m ic => <[name (snd ic) := ic]> m) ∅ (enumerate cols).

Record RowRecord : Type := {
  _row : option (list Raw);
  _result_columns : list Column;
  _column_map : gmap string (nat * Column)
}.

Definition Record_init (row : option (list Raw)) (result_columns : list Column)
  : RowRecord :=
  {| _row := row;
     _result_columns := result_columns;
     _column_map := column_map result_columns |}.

Definition __getitem__ (self : RowRecord) (key : string) : Result Value :=
  match _column_map self !! key with
  | None => Raise (KeyError key)
  | Some (idx, col) =>
    match _row self with
    | None => Raise TypeError
    | Some cells =>
      match cells !! idx with
      | None => Raise IndexError
      | Some raw =>
        match python_type col raw with
        | Some v => Ok v
        | None => Raise ConversionError
        end
      end
    end
  end.

(** ** The world: session, transaction objects, call trace *)

Inductive Event : Type :=
| CallAcquire                       (* entry of session.acquire_connection *)
| CallRelease                       (* entry of session.release_connection *)
| PoolAcquire
| PoolRelease (c : option Conn)
| ConnCursor (c : Conn)
| ConnBegin (c : Conn)
| ConnCommit (c : Conn)
| ConnRollback (c : Conn)
| CursorExecute (cur : Cursor) (sql : string) (args : option Args)
| CursorFetchall (cur : Cursor)
| CursorFetchone (cur : Cursor)
| CursorClose (cur : Cursor)
| QueryValues (q : Query) (item : Item)
| QueryCompile (q : Query).

Record MySQLSession : Type := {
  conn : option Conn;
  connection_holders : Z;
  has_root_transaction : bool;
  _rollback_transaction : option TxRef
}.

(** [tx_conn] (the attribute [conn]) and [savepoint_name] are attributes
    that [__init__] does not assign: [None] means the attribute does not
    exist yet.  The base class [DatabaseTransaction] is taken to define
    neither. *)
Record MySQLTransaction : Type := {
  is_root : bool;
  tx_conn : option Conn;
  savepoint_name : option string
}.

Record World : Type := {
  session : MySQLSession;
  heap : list MySQLTransaction;
  trace : list Event
}.

(** What the external collaborators do.  An entry is indexed by the length
    of the trace at the moment of the call. *)
Record Driver : Type := {
  fails : nat -> bool;
  pool_acquire_result : nat -> Conn;
  conn_cursor_result : nat -> Cursor;
  cursor_fetchall_result : nat -> list (list Raw);
  cursor_fetchone_result : nat -> option (list Raw);
  uuid4 : nat -> N;
  query_values : Query -> Item -> Query;
  query_compile : Query -> string * Args * list Column
}.

(** ** The monad *)

Definition M (A : Type) : Type := World -> Result A * World.

Definition ret {A} (a : A) : M A := fun w => (Ok a, w).

Definition raise {A} (e : exn) : M A := fun w => (Raise e, w).

Definition bind {A B} (m : M A) (k : A -> M B) : M B :=
  fun w =>
    match m w with
    | (Ok a, w') => k a w'
    | (Raise e, w') => (Raise e, w')
    end.

Notation "'let!' x ':=' c1 'in' c2" := (bind c1 (fun x => c2))
  (at level 10, x name, c1 at level 100, c2 at level 200).
Notation "c1 >> c2" := (bind c1 (fun _ => c2))
  (at level 65, right associativity).

(** [try: body finally: fin].  The finaliser always runs; if it raises, its
    exception replaces the outcome of the body. *)
Definition try_finally {A} (body : M A) (fin : M unit) : M A :=
  fun w =>
    match body w with
    | (r, w1) =>
      match fin w1 with
      | (Ok _, w2) => (r, w2)
      | (Raise e, w2) => (Raise e, w2)
      end
    end.

Definition set_session (s : MySQLSession) (w : World) : World :=
  {| session := s; heap := heap w; trace := trace w |}.

Definition set_heap (h : list MySQLTransaction) (w : World) : World :=
  {| session := session w; heap := h; trace := trace w |}.

Definition log_event (e : Event) (w : World) : World :=
  {| session := session w; heap := heap w; trace := trace w ++ [e] |}.

Definition get_session : M MySQLSession := fun w => (Ok (session w), w).

Definition modify_session (f : MySQLSession -> MySQLSession) : M unit :=
  fun w => (Ok tt, set_session (f (session w)) w).

Definition note (e : Event) : M unit := fun w => (Ok tt, log_event e w).

(** A call into a collaborator: logged, then it returns or raises as the
    driver says. *)
Definition ext {A} (d : Driver) (e : Event) (r : nat -> A) : M A :=
  fun w =>
    let k := length (trace w) in
    if fails d k then (Raise (DriverError k), log_event e w)
    else (Ok (r k), log_event e w).

Definition ext_ (d : Driver) (e : Event) : M unit := ext d e (fun _ => tt).

Definition get_tx (t : TxRef) : M MySQLTransaction :=
  fun w =>
    match heap w !! t with
    | Some x => (Ok x, w)
    | None => (Raise ReferenceError, w)
    end.

Definition modify_tx (t : TxRef) (f : MySQLTransaction -> MySQLTransaction)
  : M unit :=
  fun w =>
    match heap w !! t with
    | Some x => (Ok tt, set_heap (<[t := f x]> (heap w)) w)
    | None => (Raise ReferenceError, w)
    end.

(** Reading an attribute that may not have been assigned. *)
Definition attr {A} (attr_name : string) (o : option A) : M A :=
  match o with
  | Some a => ret a
  | None => raise (AttributeError attr_name)
  end.

(** ** Savepoint names

    [str(uuid.uuid4())] prints the 128-bit value as 32 lowercase hexadecimal
    digits, most significant first, grouped 8-4-4-4-12 with hyphens. *)

Definition hex_digit (n : N) : ascii :=
  match n with
  | 0 => "0" | 1 => "1" | 2 => "2" | 3 => "3" | 4 => "4" | 5 => "5"
  | 6 => "6" | 7 => "7" | 8 => "8" | 9 => "9" | 10 => "a" | 11 => "b"
  | 12 => "c" | 13 => "d" | 14 => "e" | _ => "f"
  end%N%char.

(** ['%0kx' % n] for [n < 16^k]. *)
Fixpoint hex_digits (k : nat) (n : N) : string :=
  match k with
  | O => ""
  | S k' => String (hex_digit ((n / 16 ^ N.of_nat k') mod 16)%N) (hex_digits k' n)
  end.

Definition uuid_str (n : N) : string :=
  let hex := hex_digits 32 n in
  substring 0 8 hex ++ "-" ++ substring 8 4 hex ++ "-" ++ substring 12 4 hex
    ++ "-" ++ substring 16 4 hex ++ "-" ++ substring 20 12 hex.

(** [s.replace(old, new)] for one-character [old] and [new]. *)
Fixpoint replace (old new : ascii) (s : string) : string :=
  match s with
  | EmptyString => EmptyString
  | String a s' =>
    String (if Ascii.eqb a old then new else a) (replace old new s')
  end.

Definition make_savepoint_name (uuid : N) : string :=
  "STARLETTE_SAVEPOINT_" ++ replace "-" "_" (uuid_str uuid).

(** Letters, digits and the underscore: what a bare SQL identifier is made
    of. *)
Definition identifier_char (a : ascii) : bool :=
  let n := N_of_ascii a in
  ((48 <=? n) && (n <=? 57) || (65 <=? n) && (n <=? 90)
   || (97 <=? n) && (n <=? 122) || (n =? 95))%N.

Definition hex_char (a : ascii) : bool :=
  let n := N_of_ascii a in
  ((48 <=? n) && (n <=? 57) || (97 <=? n) && (n <=? 102))%N.

Fixpoint string_forall (p : ascii -> bool) (s : string) : bool :=
  match s with
  | EmptyString => true
  | String a s' => p a && string_forall p s'
  end.

Definition identifier (s : string) : bool := string_forall identifier_char s.

Definition letter_char (a : ascii) : bool :=
  let n := N_of_ascii a in
  ((65 <=? n) && (n <=? 90) || (97 <=? n) && (n <=? 122))%N.

(** A name that MySQL accepts as an identifier written bare, without
    delimiters: it is not empty, is made of letters, digits and underscores
    only, is at most 64 characters long, and begins with a letter (so it is
    not a number). *)
Definition bare_identifier (s : string) : bool :=
  match s with
  | EmptyString => false
  | String a _ =>
    letter_char a && identifier s && (String.length s <=? 64)%nat
  end.

(** The value of a hexadecimal digit, [int(a, 16)]. *)
Definition hex_value (a : ascii) : N :=
  let n := N_of_ascii a in
  (if n <=? 57 then n - 48 else n - 87)%N.

(** ** MySQLSession *)

Definition set_conn (c : option Conn) (s : MySQLSession) : MySQLSession :=
  {| conn := c;
     connection_holders := connection_holders s;
     has_root_transaction := has_root_transaction s;
     _rollback_transaction := _rollback_transaction s |}.

Definition set_connection_holders (n : Z) (s : MySQLSession) : MySQLSession :=
  {| conn := conn s;
     connection_holders := n;
     has_root_transaction := has_root_transaction s;
     _rollback_transaction := _rollback_transaction s |}.

Definition set_has_root_transaction (b : bool) (s : MySQLSession)
  : MySQLSession :=
  {| conn := conn s;
     connection_holders := connection_holders s;
     has_root_transaction := b;
     _rollback_transaction := _rollback_transaction s |}.

Definition set_is_root (b : bool) (t : MySQLTransaction) : MySQLTransaction :=
  {| is_root := b; tx_conn := tx_conn t; savepoint_name := savepoint_name t |}.

Definition set_tx_conn (c : Conn) (t : MySQLTransaction) : MySQLTransaction :=
  {| is_root := is_root t; tx_conn := Some c; savepoint_name := savepoint_name t |}.

Definition set_savepoint_name (n : string) (t : MySQLTransaction)
  : MySQLTransaction :=
  {| is_root := is_root t; tx_conn := tx_conn t; savepoint_name := Some n |}.

Definition Transaction_init : MySQLTransaction :=
  {| is_root := false; tx_conn := None; savepoint_name := None |}.

(** [session.transaction()]: a new transaction object. *)
Definition transaction : M TxRef :=
  fun w => (Ok (length (heap w)), set_heap (heap w ++ [Transaction_init]) w).

Definition Session_init (rollback_isolation : bool) : World :=
  let s := {| conn := None;
              connection_holders := 0;
              has_root_transaction := false;
              _rollback_transaction := None |} in
  if rollback_isolation then
    {| session := {| conn := None;
                     connection_holders := 0;
                     has_root_transaction := false;
                     _rollback_transaction := Some 0%nat |};
       heap := [Transaction_init];
       trace := [] |}
  else {| session := s; heap := []; trace := [] |}.

Section WithDriver.

Variable d : Driver.

Definition acquire_connection : M Conn :=
  note CallAcquire >>
  modify_session (fun s => set_connection_holders (connection_holders s + 1) s) >>
  let! s := get_session in
  match conn s with
  | None =>
    let! c := ext d PoolAcquire (pool_acquire_result d) in
    modify_session (set_conn (Some c)) >>
    ret c
  | Some c => ret c
  end.

Definition release_connection : M unit :=
  note CallRelease >>
  modify_session (fun s => set_connection_holders (connection_holders s - 1) s) >>
  let! s := get_session in
  if (connection_holders s =? 0)%Z then
    ext_ d (PoolRelease (conn s)) >>
    modify_session (set_conn None)
  else ret tt.

Definition _compile (query : Query) : M (string * Args * list Column) :=
  ext d (QueryCompile query) (fun _ => query_compile d query).

Definition fetchall (query : Query) : M (list RowRecord) :=
  let! compiled := _compile query in
  let '(sql, args, result_columns) := compiled in
  let! c := acquire_connection in
  let! cursor := ext d (ConnCursor c) (conn_cursor_result d) in
  try_finally
    (ext_ d (CursorExecute cursor sql (Some args)) >>
     let! rows := ext d (CursorFetchall cursor) (cursor_fetchall_result d) in
     ret (map (fun row => Record_init (Some row) result_columns) rows))
    (ext_ d (CursorClose cursor) >> release_connection).

Definition fetchone (query : Query) : M RowRecord :=
  let! compiled := _compile query in
  let '(sql, args, result_columns) := compiled in
  let! c := acquire_connection in
  let! cursor := ext d (ConnCursor c) (conn_cursor_result d) in
  try_finally
    (ext_ d (CursorExecute cursor sql (Some args)) >>
     let! row := ext d (CursorFetchone cursor) (cursor_fetchone_result d) in
     ret (Record_init row result_columns))
    (ext_ d (CursorClose cursor) >> release_connection).

Definition execute (query : Query) : M unit :=
  let! compiled := _compile query in
  let '(sql, args, result_columns) := compiled in
  let! c := acquire_connection in
  let! cursor := ext d (ConnCursor c) (conn_cursor_result d) in
  try_finally
    (ext_ d (CursorExecute cursor sql (Some args)))
    (ext_ d (CursorClose cursor) >> release_connection).

(** The body of [for item in values: ...]. *)
Fixpoint executemany_loop (cursor : Cursor) (query : Query) (values : list Item)
  : M unit :=
  match values with
  | [] => ret tt
  | item :: rest =>
    let! single_query :=
      ext d (QueryValues query item) (fun _ => query_values d query item) in
    let! compiled := _compile single_query in
    let '(sql, args, result_columns) := compiled in
    ext_ d (CursorExecute cursor sql (Some args)) >>
    executemany_loop cursor query rest
  end.

Definition executemany (query : Query) (values : list Item) : M unit :=
  let! c := acquire_connection in
  let! cursor := ext d (ConnCursor c) (conn_cursor_result d) in
  try_finally
    (executemany_loop cursor query values)
    (ext_ d (CursorClose cursor) >> release_connection).

(** ** MySQLTransaction *)

Definition start (self : TxRef) : M unit :=
  let! s := get_session in
  (if has_root_transaction s then ret tt
   else
     modify_session (set_has_root_transaction true) >>
     modify_tx self (set_is_root true)) >>
  let! c := acquire_connection in
  modify_tx self (set_tx_conn c) >>
  let! me := get_tx self in
  if is_root me then
    let! c := attr "conn" (tx_conn me) in
    ext_ d (ConnBegin c)
  else
    let! k := (fun w => (Ok (length (trace w)), w)) in
    modify_tx self (set_savepoint_name (make_savepoint_name (uuid4 d k))) >>
    let! me := get_tx self in
    let! c := attr "conn" (tx_conn me) in
    let! cursor := ext d (ConnCursor c) (conn_cursor_result d) in
    try_finally
      (let! me := get_tx self in
       let! sp := attr "savepoint_name" (savepoint_name me) in
       ext_ d (CursorExecute cursor ("SAVEPOINT " ++ sp) None))
      (ext_ d (CursorClose cursor)).

Definition commit (self : TxRef) : M unit :=
  let! me := get_tx self in
  (if is_root me then
     let! c := attr "conn" (tx_conn me) in
     ext_ d (ConnCommit c) >>
     modify_session (set_has_root_transaction false)
   else
     let! c := attr "conn" (tx_conn me) in
     let! cursor := ext d (ConnCursor c) (conn_cursor_result d) in
     try_finally
       (let! sp := attr "savepoint_name" (savepoint_name me) in
        ext_ d (CursorExecute cursor ("RELEASE SAVEPOINT " ++ sp) None))
       (ext_ d (CursorClose cursor))) >>
  release_connection.

Definition rollback (self : TxRef) : M unit :=
  let! me := get_tx self in
  (if is_root me then
     let! c := attr "conn" (tx_conn me) in
     ext_ d (ConnRollback c) >>
     modify_session (set_has_root_transaction false)
   else
     let! c := attr "conn" (tx_conn me) in
     let! cursor := ext d (ConnCursor c) (conn_cursor_result d) in
     try_finally
       (let! sp := attr "savepoint_name" (savepoint_name me) in
        ext_ d (CursorExecute cursor ("ROLLBACK TO SAVEPOINT " ++ sp) None))
       (ext_ d (CursorClose cursor))) >>
  release_connection.

(** [async with session:] entry and exit. *)
Definition __aenter__ : M unit :=
  let! s := get_session in
  match _rollback_transaction s with
  | Some t => start t
  | None => ret tt
  end.

Definition __aexit__ : M unit :=
  let! s := get_session in
  match _rollback_transaction s with
  | Some t => rollback t
  | None => ret tt
  end.

End WithDriver.

End Backend.

(** ** Observations on traces and call sequences *)

Section Observations.

Context {Query Args Item : Type}.

Abbreviation Event := (@Event Query Args Item).
Abbreviation World := (@World Query Args Item).

(** The events logged since the trace had length [n]. *)
Definition events_since (n : nat) (w : World) : list Event := drop n (trace w).

Fixpoint count (p : Event -> bool) (evs : list Event) : nat :=
  match evs with
  | [] => O
  | e :: rest => ((if p e then 1 else 0) + count p rest)%nat
  end.

Definition extend (evs : list Event) (w : World) : World :=
  {| session := session w; heap := heap w; trace := trace w ++ evs |}.

Definition is_CallAcquire (e : Event) : bool :=
  match e with CallAcquire => true | _ => false end.
Definition is_CallRelease (e : Event) : bool :=
  match e with CallRelease => true | _ => false end.
Definition is_PoolAcquire (e : Event) : bool :=
  match e with PoolAcquire => true | _ => false end.
Definition is_PoolRelease (e : Event) : bool :=
  match e with PoolRelease _ => true | _ => false end.
Definition is_ConnCursor (e : Event) : bool :=
  match e with ConnCursor _ => true | _ => false end.
Definition is_CursorExecute (e : Event) : bool :=
  match e with CursorExecute _ _ _ => true | _ => false end.
Definition is_CursorClose (e : Event) : bool :=
  match e with CursorClose _ => true | _ => false end.
Definition is_QueryCompile (e : Event) : bool :=
  match e with QueryCompile _ => true | _ => false end.

(** [CursorExecute] events all go to cursor [cur]. *)
Definition executes_on (cur : Cursor) (e : Event) : bool :=
  match e with CursorExecute c _ _ => Nat.eqb c cur | _ => true end.

(** The [is_root] attribute of every transaction object, and the two
    things the root bookkeeping is made of. *)
Definition roots (w : World) : list bool := is_root <$> heap w.

Definition root_state (w : World) : bool * list bool :=
  (has_root_transaction (session w), roots w).

(** A computation leaves an aspect of the world as it found it, whether it
    returns or raises. *)
Definition preserves {A V} (view : World -> V)
    (m : World -> Result A * World) : Prop :=
  forall w, view (snd (m w)) = view w.

(** The session invariant of the lease. *)
Definition lease_invariant (s : MySQLSession) : Prop :=
  conn s <> None <-> 0 < connection_holders s.

End Observations.

(** Sequences of lease calls on one session. *)
Inductive LeaseCall : Type := Acquire | Release.

(** Every [Release] is matched by an earlier [Acquire] that is still held;
    [depth] leases are held at the start. *)
Fixpoint paired (depth : nat) (calls : list LeaseCall) : bool :=
  match calls with
  | [] => true
  | Acquire :: rest => paired (S depth) rest
  | Release :: rest =>
    match depth with
    | O => false
    | S depth' => paired depth' rest
    end
  end.

Fixpoint final_depth (depth : nat) (calls : list LeaseCall) : nat :=
  match calls with
  | [] => depth
  | Acquire :: rest => final_depth (S depth) rest
  | Release :: rest => final_depth (Nat.pred depth) rest
  end.

(** Paired, and nothing is held at the end. *)
Definition balanced (calls : list LeaseCall) : bool :=
  paired 0 calls && Nat.eqb (final_depth 0 calls) 0.

(** Sequences of transaction calls on one session.  [New] is
    [session.transaction()]; the other calls name the transaction object
    they are made on. *)
Inductive Call : Type :=
| New
| Start (t : TxRef)
| Commit (t : TxRef)
| Rollback (t : TxRef).

(** The caller-side life cycle of a transaction object. *)
Inductive Phase : Type := Unstarted | Active | Terminated.

Definition next_phases (c : Call) (ps : list Phase) : list Phase :=
  match c with
  | New => ps ++ [Unstarted]
  | Start t => <[t := Active]> ps
  | Commit t | Rollback t => <[t := Terminated]> ps
  end.

(** The life-cycle contract: [start] on an unstarted transaction, [commit]
    and [rollback] on an active one. *)
Definition allowed (c : Call) (ps : list Phase) : bool :=
  match c with
  | New => true
  | Start t => match ps !! t with Some Unstarted => true | _ => false end
  | Commit t | Rollback t =>
    match ps !! t with Some Active => true | _ => false end
  end.

Fixpoint protocol (ps : list Phase) (calls : list Call) : bool :=
  match calls with
  | [] => true
  | c :: rest => allowed c ps && protocol (next_phases c ps) rest
  end.

Section Runs.

Context {Query Args Item Raw Value : Type}.
Variable d : @Driver Query Args Item Raw Value.

Abbreviation World := (@World Query Args Item).
Abbreviation Event := (@Event Query Args Item).

(** What one call of [acquire_connection] logs on session [s] when the pool
    does not raise. *)
Definition acquire_events (s : MySQLSession) : list Event :=
  CallAcquire :: match conn s with None => [PoolAcquire] | Some _ => [] end.

(** What one call of [release_connection] logs when it brings the number of
    holders down to [holders] and the pool does not raise. *)
Definition release_events (holders : Z) (c : option Conn) : list Event :=
  CallRelease :: if (holders =? 0)%Z then [PoolRelease c] else [].

(** What one iteration of the loop of [executemany] logs. *)
Definition item_events (cursor : Cursor) (query : Query) (item : Item)
  : list Event :=
  let single_query := query_values d query item in
  let '(sql, args, _) := query_compile d single_query in
  [QueryValues query item; QueryCompile single_query;
   CursorExecute cursor sql (Some args)].

(** The world after [acquire_connection] and after [release_connection]
    when the pool does not raise, and the connection the former returns. *)
Definition acquired_conn (w : World) : Conn :=
  match conn (session w) with
  | Some c => c
  | None => pool_acquire_result d (S (length (trace w)))
  end.

Definition after_acquire (w : World) : World :=
  let s := session w in
  extend (acquire_events s)
    (set_session
       (set_conn (Some (acquired_conn w))
          (set_connection_holders (connection_holders s + 1) s)) w).

Definition after_release (w : World) : World :=
  let s := session w in
  let holders := connection_holders s - 1 in
  extend (release_events holders (conn s))
    (set_session
       (if (holders =? 0)%Z
        then set_conn None (set_connection_holders holders s)
        else set_connection_holders holders s) w).

Definition lease_call (c : LeaseCall) (w : World) : World :=
  match c with
  | Acquire => snd (acquire_connection d w)
  | Release => snd (release_connection d w)
  end.

(** The calls are made one after the other, whatever each returns. *)
Definition run_lease (calls : list LeaseCall) (w : World) : World :=
  foldl (fun w c => lease_call c w) w calls.

Definition call (c : Call) (w : World) : World :=
  match c with
  | New => snd (transaction w)
  | Start t => snd (start d t w)
  | Commit t => snd (commit d t w)
  | Rollback t => snd (rollback d t w)
  end.

(** The bookkeeping of a run: the caller-side life cycle of every
    transaction object, and the transaction whose [start] last set
    [has_root_transaction]. *)
Record Run : Type := {
  world : World;
  phases : list Phase;
  flag_setter : option TxRef
}.

Definition next_setter (c : Call) (w : World) (o : option TxRef)
  : option TxRef :=
  match c with
  | Start t => if has_root_transaction (session w) then o else Some t
  | _ => o
  end.

Definition step (r : Run) (c : Call) : Run :=
  {| world := call c (world r);
     phases := next_phases c (phases r);
     flag_setter := next_setter c (world r) (flag_setter r) |}.

Definition run_calls (calls : list Call) (r : Run) : Run :=
  foldl step r calls.

Definition initial (rollback_isolation : bool) : Run :=
  {| world := Session_init rollback_isolation;
     phases := if rollback_isolation then [Unstarted] else [];
     flag_setter := None |}.

Definition root_flag (r : Run) : bool := has_root_transaction (session (world r)).

Definition is_root_of (r : Run) (t : TxRef) : bool :=
  match heap (world r) !! t with
  | Some tx => is_root tx
  | None => false
  end.

(** [t] is a root transaction that has been started and not terminated. *)
Definition open_root (r : Run) (t : TxRef) : bool :=
  is_root_of r t &&
  match phases r !! t with Some Active => true | _ => false end.

(** What holds of every run that follows the contract: each transaction
    object has a phase, an unstarted one is not a root, and an open root is
    the transaction that set the session's flag, which is still set. *)
Definition run_invariant (r : Run) : Prop :=
  length (phases r) = length (heap (world r)) /\
  (forall t, phases r !! t = Some Unstarted -> roots (world r) !! t = Some false) /\
  (forall t, roots (world r) !! t = Some true -> phases r !! t = Some Active ->
             root_flag r = true /\ flag_setter r = Some t).

End Runs.

(** ** Concrete instances used in the examples *)

Inductive pyval : Type :=
| PyInt (z : Z)
| PyStr (s : string)
| PyNone.

(** Converters that accept only a raw value that already has the type. *)
Definition checked_int (raw : pyval) : option pyval :=
  match raw with PyInt z => Some (PyInt z) | _ => None end.

Definition checked_str (raw : pyval) : option pyval :=
  match raw with PyStr s => Some (PyStr s) | _ => None end.

Definition users_columns : list (@Column pyval pyval) :=
  [ {| name := "id"; python_type := checked_int |};
    {| name := "name"; python_type := checked_str |} ].

(** A query is its SQL text and its bound values. *)
Definition ExQuery : Type := string * list pyval.

Definition ExDriver : Type :=
  @Driver ExQuery (list pyval) (list pyval) pyval pyval.

(** A driver whose calls raise exactly at the trace positions [bad]; the
    pool hands out connection 7 and every fetch finds the table empty. *)
Definition driver_failing_at (bad : list nat) : ExDriver :=
  {| fails := fun k => existsb (Nat.eqb k) bad;
     pool_acquire_result := fun _ => 7%nat;
     conn_cursor_result := fun k => k;
     cursor_fetchall_result := fun _ => [];
     cursor_fetchone_result := fun _ => None;
     uuid4 := fun k => N.of_nat k;
     query_values := fun q item => (fst q, item);
     query_compile := fun q => (fst q, snd q, users_columns) |}.

Definition ok_driver : ExDriver := driver_failing_at [].

(** A driver that never raises and whose table holds two users. *)
Definition two_users : list (list pyval) :=
  [[PyInt 1; PyStr "alice"]; [PyInt 2; PyStr "bob"]].

Definition two_users_driver : ExDriver :=
  {| fails := fun _ => false;
     pool_acquire_result := fun _ => 7%nat;
     conn_cursor_result := fun k => k;
     cursor_fetchall_result := fun _ => two_users;
     cursor_fetchone_result := fun _ => Some [PyInt 1; PyStr "alice"];
     uuid4 := fun k => N.of_nat k;
     query_values := fun q item => (fst q, item);
     query_compile := fun q => (fst q, snd q, users_columns) |}.

Definition fresh_session : @World ExQuery (list pyval) (list pyval) :=
  Session_init false.

Definition users_query : ExQuery := ("SELECT id, name FROM users", []).

(** One and two transaction objects created on a new session. *)
Definition one_transaction : @World ExQuery (list pyval) (list pyval) :=
  snd (transaction fresh_session).

Definition two_transactions : @World ExQuery (list pyval) (list pyval) :=
  snd (transaction one_transaction).

(** The first of two transaction objects started as the root, and then the
    second started inside it and a third object created. *)
Definition root_started : @World ExQuery (list pyval) (list pyval) :=
  snd (start ok_driver 0%nat two_transactions).

Definition nested_started : @World ExQuery (list pyval) (list pyval) :=
  snd (transaction (snd (start ok_driver 1%nat root_started))).

(** A root transaction started and committed, a second one started as the
    new root, then the first one terminated again. *)
Definition double_termination : list Call :=
  [New; New; New; Start 0; Commit 0; Start 1; Rollback 0]%nat.

(** ** MySQLBackend

    [DatabaseURL] belongs to [databases.core]; it is represented by the five
    attributes [connect] reads.  The backend has a world of its own: the
    backend object and the calls made to [aiomysql.create_pool],
    [getpass.getuser] and the pool. *)

Abbreviation Pool := nat.

Record DatabaseURL : Type := {
  hostname : option string;
  port : option Z;
  username : option string;
  password : option string;
  database : option string
}.

Inductive Dialect : Type :=
| PyMySQLDialect (paramstyle : string).

Record MySQLBackend : Type := {
  database_url : DatabaseURL;
  dialect : Dialect;
  pool : option Pool
}.

Inductive BackendEvent : Type :=
| GetUser
| CreatePool (host : option string) (port : Z) (user : string)
    (password : option string) (db : option string)
| PoolClose (p : Pool)
| PoolWaitClosed (p : Pool).

Inductive backend_exn : Type :=
| AssertionError (msg : string)
| BackendDriverError (at_call : nat).

Inductive BackendResult (A : Type) : Type :=
| BackendOk (a : A)
| BackendRaise (e : backend_exn).
Arguments BackendOk {A} a.
Arguments BackendRaise {A} e.

Record BackendWorld : Type := {
  backend : MySQLBackend;
  backend_trace : list BackendEvent
}.

Record BackendDriver : Type := {
  backend_fails : nat -> bool;
  getuser_result : nat -> string;
  create_pool_result : nat -> Pool
}.

Definition _get_dialect : Dialect := PyMySQLDialect "pyformat".

Definition Backend_init (url : DatabaseURL) : MySQLBackend :=
  {| database_url := url; dialect := _get_dialect; pool := None |}.

Definition set_pool (p : option Pool) (b : MySQLBackend) : MySQLBackend :=
  {| database_url := database_url b; dialect := dialect b; pool := p |}.

Definition backend_log (e : BackendEvent) (bw : BackendWorld) : BackendWorld :=
  {| backend := backend bw; backend_trace := backend_trace bw ++ [e] |}.

(** [db.port or 3306]: [None] and [0] are both false. *)
Definition port_or_default (p : option Z) : Z :=
  match p with
  | Some n => if (n =? 0)%Z then 3306 else n
  | None => 3306
  end.

(** Is [db.username] true, that is neither [None] nor the empty string? *)
Definition username_given (u : option string) : option string :=
  match u with
  | Some EmptyString => None
  | Some name => Some name
  | None => None
  end.

Definition connect (bd : BackendDriver) (bw : BackendWorld)
  : BackendResult unit * BackendWorld :=
  let db := database_url (backend bw) in
  let with_user (user : string) (bw1 : BackendWorld) :=
    let k := length (backend_trace bw1) in
    let bw2 :=
      backend_log (CreatePool (hostname db) (port_or_default (port db)) user
                     (password db) (database db)) bw1 in
    if backend_fails bd k then (BackendRaise (BackendDriverError k), bw2)
    else
      (BackendOk tt,
       {| backend := set_pool (Some (create_pool_result bd k)) (backend bw2);
          backend_trace := backend_trace bw2 |}) in
  match username_given (username db) with
  | Some user => with_user user bw
  | None =>
    let k := length (backend_trace bw) in
    let bw1 := backend_log GetUser bw in
    if backend_fails bd k then (BackendRaise (BackendDriverError k), bw1)
    else with_user (getuser_result bd k) bw1
  end.

Definition disconnect (bd : BackendDriver) (bw : BackendWorld)
  : BackendResult unit * BackendWorld :=
  match pool (backend bw) with
  | None => (BackendRaise (AssertionError "DatabaseBackend is not running"), bw)
  | Some p =>
    let k := length (backend_trace bw) in
    let bw1 := backend_log (PoolClose p) bw in
    if backend_fails bd k then (BackendRaise (BackendDriverError k), bw1)
    else
      let k1 := length (backend_trace bw1) in
      let bw2 := backend_log (PoolWaitClosed p) bw1 in
      if backend_fails bd k1 then (BackendRaise (BackendDriverError k1), bw2)
      else
        (BackendOk tt,
         {| backend := set_pool None (backend bw2);
            backend_trace := backend_trace bw2 |})
  end.

(** [backend.session(rollback_isolation)]: the new session, with the pool
    and the dialect it is built on. *)
Definition Backend_session {Query Args Item : Type} (rollback_isolation : bool)
    (bw : BackendWorld)
  : BackendResult (Pool * Dialect * @World Query Args Item) :=
  match pool (backend bw) with
  | None => BackendRaise (AssertionError "DatabaseBackend is not running")
  | Some p => BackendOk (p, dialect (backend bw), Session_init rollback_isolation)
  end.

(** ** More observations *)

Section MoreObservations.

Context {Query Args Item Raw Value : Type}.

Abbreviation Event := (@Event Query Args Item).

(** The driver raises at position [p] of the trace and nowhere else. *)
Definition fails_only_at (d : @Driver Query Args Item Raw Value) (p : nat)
  : Prop :=
  forall k, fails d k = Nat.eqb k p.

(** Calls of [begin()], [commit()] and [rollback()] on a connection. *)
Definition is_native (e : Event) : bool :=
  match e with
  | ConnBegin _ | ConnCommit _ | ConnRollback _ => true
  | _ => false
  end.

(** How a call that takes the lease for its own duration may leave the
    number of holders, [h] being the number it found: a call that returns
    leaves it as it was; one that raises leaves it as it was or one
    higher. *)
Definition lease_settled {A} (h : Z)
    (rw : Result A * @World Query Args Item) : Prop :=
  match fst rw with
  | Ok _ => connection_holders (session (snd rw)) = h
  | Raise _ =>
    connection_holders (session (snd rw)) = h \/
    connection_holders (session (snd rw)) = h + 1
  end.

(** Where in the trace the statement of [execute], [fetchall] or
    [fetchone] is executed when those methods are called in world [w]:
    after the compilation, the entry of [acquire_connection], the pool's
    acquire if the session holds no connection, and the cursor's
    creation. *)
Definition statement_position (w : @World Query Args Item) : nat :=
  (length (trace w) + 2
   + match conn (session w) with None => 2 | Some _ => 1 end)%nat.

(** Where in the trace [executemany], called in world [w], executes the
    statement of its value set number [i] (from 0): after the entry of
    [acquire_connection], the pool's acquire if the session holds no
    connection, the cursor's creation, and three calls per value set. *)
Definition execute_position (w : @World Query Args Item) (i : nat) : nat :=
  (length (trace w)
   + match conn (session w) with None => 2 | Some _ => 1 end
   + 1 + 3 * i + 2)%nat.

(** Where in the trace [start], called in world [w], makes its first call
    on the connection: after the entry of [acquire_connection] and the
    pool's acquire if the session holds no connection. *)
Definition begin_position (w : @World Query Args Item) : nat :=
  (length (trace w)
   + match conn (session w) with None => 2 | Some _ => 1 end)%nat.

(** A [pool.release] that is handed a connection. *)
Definition releases_a_connection (e : Event) : bool :=
  match e with
  | PoolRelease None => false
  | _ => true
  end.

End MoreObservations.

(** The transactions of a run that are started and not terminated. *)
Fixpoint count_active (ps : list Phase) : nat :=
  match ps with
  | [] => O
  | Active :: rest => S (count_active rest)
  | _ :: rest => count_active rest
  end.

(** What holds of a run that follows the contract when no collaborator
    raises: one lease per active transaction, the invariant of the lease,
    and every active transaction has its connection and, unless it is a
    root, its savepoint name. *)
Definition leases_match {Query Args Item : Type}
    (r : @Run Query Args Item) : Prop :=
  connection_holders (session (world r)) = Z.of_nat (count_active (phases r)) /\
  lease_invariant (session (world r)) /\
  (forall t, phases r !! t = Some Active ->
     exists tx c,
       heap (world r) !! t = Some tx /\ tx_conn tx = Some c /\
       (is_root tx = true \/ exists sp, savepoint_name tx = Some sp)).

(** A backend driver that never raises, and a URL with neither port nor
    user. *)
Definition ok_backend_driver : BackendDriver :=
  {| backend_fails := fun _ => false;
     getuser_result := fun _ => "app";
     create_pool_result := fun _ => 5%nat |}.

Definition bare_url : DatabaseURL :=
  {| hostname := Some "localhost"; port := None; username := None;
     password := None; database := Some "test" |}.

Definition new_backend (url : DatabaseURL) : BackendWorld :=
  {| backend := Backend_init url; backend_trace := [] |}.

(** * Properties *)

Local Open Scope list_scope.

(** ** Record *)

Section RecordFacts.

Context {Raw Value : Type}.
Implicit Types (cols : list (@Column Raw Value)) (key : string).

Lemma enumerate_snoc {A} (l : list A) (x : A) :
  enumerate (l ++ [x]) = enumerate l ++ [(length l, x)].
Proof.
  unfold enumerate. rewrite length_app, seq_app. simpl.
  rewrite zip_with_app by (now rewrite length_seq). reflexivity.
Qed.

Lemma column_map_snoc cols c :
  column_map (cols ++ [c]) = <[name c := (length cols, c)]> (column_map cols).
Proof.
  unfold column_map. rewrite enumerate_snoc, foldl_app. reflexivity.
Qed.

Lemma column_map_None cols key :
  column_map cols !! key = None <-> ~ In key (map name cols).
Proof.
  induction cols as [|c cols IH] using rev_ind.
  - unfold column_map. simpl. rewrite lookup_empty. tauto.
  - rewrite column_map_snoc, map_app, in_app_iff. simpl.
    destruct (decide (name c = key)) as [Heq|Hne].
    + rewrite Heq, lookup_insert_eq. split; [discriminate | tauto].
    + rewrite lookup_insert_ne by assumption. rewrite IH. tauto.
Qed.

(** The entry found for a key is the last column with that name. *)
Lemma column_map_Some cols key idx col :
  column_map cols !! key = Some (idx, col) ->
  cols !! idx = Some col /\ name col = key /\
  forall j c, (idx < j)%nat -> cols !! j = Some c -> name c <> key.
Proof.
  revert idx col. induction cols as [|c cols IH] using rev_ind; intros idx col.
  - unfold column_map. simpl. rewrite lookup_empty. discriminate.
  - rewrite column_map_snoc.
    destruct (decide (name c = key)) as [Heq|Hne].
    + rewrite Heq, lookup_insert_eq. intros [= <- <-].
      split; [|split; [assumption|]].
      * rewrite lookup_app_r by lia. now rewrite Nat.sub_diag.
      * intros j c' Hj Hc'. apply lookup_lt_Some in Hc'.
        rewrite length_app in Hc'. simpl in Hc'. lia.
    + rewrite lookup_insert_ne by assumption. intros H.
      destruct (IH _ _ H) as (Hidx & Hname & Hlast).
      pose proof (lookup_lt_Some _ _ _ Hidx) as Hlt.
      split; [|split; [assumption|]].
      * now rewrite lookup_app_l.
      * intros j c' Hj Hc'.
        destruct (decide (j < length cols)%nat) as [Hin|Hout].
        -- rewrite lookup_app_l in Hc' by assumption. eauto.
        -- apply lookup_lt_Some in Hc' as Hlen.
           rewrite length_app in Hlen. simpl in Hlen.
           assert (j = length cols) as -> by lia.
           rewrite lookup_app_r in Hc' by lia.
           rewrite Nat.sub_diag in Hc'. simpl in Hc'. congruence.
Qed.

(** C9.  Looking a name up in a record raises [KeyError] exactly when no
    column descriptor has that name, and the error then carries the name.
    When a descriptor has it and the record was built from a row with one
    cell per descriptor, the lookup resolves the name to a position and its
    descriptor, applies the descriptor's [python_type] to the raw cell at
    that position, and returns what the conversion gives. *)
Theorem Record_getitem_spec (row : option (list Raw)) cols key :
  ((exists k, __getitem__ (Record_init row cols) key = Raise (KeyError k))
   <-> ~ In key (map name cols)) /\
  (~ In key (map name cols) ->
   __getitem__ (Record_init row cols) key = Raise (KeyError key)) /\
  (forall cells,
     row = Some cells -> length cells = length cols ->
     In key (map name cols) ->
     exists idx col raw,
       cols !! idx = Some col /\ name col = key /\ cells !! idx = Some raw /\
       __getitem__ (Record_init row cols) key =
         match python_type col raw with
         | Some v => Ok v
         | None => Raise ConversionError
         end).
Proof.
  unfold __getitem__, Record_init. simpl.
  destruct (column_map cols !! key) as [[idx col]|] eqn:Hmap.
  - assert (Hpresent : In key (map name cols)).
    { destruct (in_dec string_dec key (map name cols)) as [Hin|Hout]; [assumption|].
      apply column_map_None in Hout. congruence. }
    split; [|split].
    + split; [|tauto]. intros [k Hk].
      destruct row as [cells|]; [|discriminate].
      destruct (cells !! idx) as [raw|]; [|discriminate].
      destruct (python_type col raw); discriminate.
    + tauto.
    + intros cells -> Hlen _.
      destruct (column_map_Some _ _ _ _ Hmap) as (Hidx & Hname & _).
      assert (exists raw, cells !! idx = Some raw) as [raw Hraw].
      { apply lookup_lt_is_Some. rewrite Hlen. eapply lookup_lt_Some; eauto. }
      rewrite Hraw. exists idx, col, raw. auto.
  - apply column_map_None in Hmap. split; [|split].
    + split; eauto.
    + reflexivity.
    + intros cells _ _ Hin. contradiction.
Qed.

End RecordFacts.

Lemma Record_getitem_spec_witness :
  __getitem__ (Record_init (Some [PyInt 1; PyStr "alice"]) users_columns) "name"
    = Ok (PyStr "alice") /\
  __getitem__ (Record_init (Some [PyInt 1; PyStr "alice"]) users_columns) "missing"
    = Raise (KeyError "missing").
Proof.
  destruct (Record_getitem_spec (Some [PyInt 1; PyStr "alice"]) users_columns "missing")
    as (_ & Hmissing & _).
  destruct (Record_getitem_spec (Some [PyInt 1; PyStr "alice"]) users_columns "name")
    as (_ & _ & Hname).
  split.
  - destruct (Hname [PyInt 1; PyStr "alice"] eq_refl eq_refl)
      as (idx & col & raw & Hidx & Hcol & Hraw & Hget).
    { simpl. auto. }
    reflexivity.
  - apply Hmissing. simpl. intros [H|[H|[]]]; discriminate.
Defined.

(** ** Savepoint names *)

Section SavepointNames.

Local Open Scope string_scope.

Lemma string_forall_app p (s1 s2 : string) :
  string_forall p (s1 ++ s2) = string_forall p s1 && string_forall p s2.
Proof.
  induction s1 as [|a s1 IH]; simpl; [reflexivity|].
  now rewrite IH, andb_assoc.
Qed.

Lemma string_forall_substring p (s : string) n m :
  string_forall p s = true -> string_forall p (substring n m s) = true.
Proof.
  revert n m. induction s as [|a s IH]; intros n m H.
  - destruct n, m; reflexivity.
  - simpl in H. apply andb_true_iff in H as [Ha Hs].
    destruct n as [|n]; simpl.
    + destruct m as [|m]; simpl; [reflexivity|].
      rewrite Ha. simpl. now apply IH.
    + now apply IH.
Qed.

Lemma string_forall_impl (p q : ascii -> bool) (s : string) :
  (forall a, p a = true -> q a = true) ->
  string_forall p s = true -> string_forall q s = true.
Proof.
  intros Hpq. induction s as [|a s IH]; simpl; [reflexivity|].
  intros H. apply andb_true_iff in H as [Ha Hs].
  now rewrite (Hpq _ Ha), IH.
Qed.

Lemma hex_digit_cases (n : N) :
  (n < 16)%N ->
  n = 0%N \/ n = 1%N \/ n = 2%N \/ n = 3%N \/ n = 4%N \/ n = 5%N \/ n = 6%N
  \/ n = 7%N \/ n = 8%N \/ n = 9%N \/ n = 10%N \/ n = 11%N \/ n = 12%N
  \/ n = 13%N \/ n = 14%N \/ n = 15%N.
Proof. lia. Qed.

Lemma hex_digit_hex_char (n : N) : (n < 16)%N -> hex_char (hex_digit n) = true.
Proof.
  intros H. apply hex_digit_cases in H.
  repeat (destruct H as [-> | H]; [reflexivity|]). now subst.
Qed.

Lemma hex_value_digit (n : N) : (n < 16)%N -> hex_value (hex_digit n) = n.
Proof.
  intros H. apply hex_digit_cases in H.
  repeat (destruct H as [-> | H]; [reflexivity|]). now subst.
Qed.

Lemma hex_digits_hex_char k (n : N) : string_forall hex_char (hex_digits k n) = true.
Proof.
  induction k as [|k IH]; simpl; [reflexivity|].
  rewrite IH, hex_digit_hex_char; [reflexivity|].
  apply N.mod_upper_bound. discriminate.
Qed.

Lemma hex_digits_length k (n : N) : String.length (hex_digits k n) = k.
Proof. induction k as [|k IH]; simpl; congruence. Qed.

Lemma hex_digits_inj k (n m : N) :
  hex_digits k n = hex_digits k m ->
  (n mod 16 ^ N.of_nat k = m mod 16 ^ N.of_nat k)%N.
Proof.
  induction k as [|k IH]; intros H.
  - simpl. now rewrite !N.mod_1_r.
  - simpl in H. injection H as Hd Htl.
    apply (f_equal hex_value) in Hd.
    rewrite !hex_value_digit in Hd by (apply N.mod_upper_bound; discriminate).
    specialize (IH Htl).
    rewrite Nat2N.inj_succ, N.pow_succ_r', (N.mul_comm 16).
    rewrite !N.Div0.mod_mul_r. congruence.
Qed.

(** Grouping 32 digits as 8-4-4-4-12 loses nothing. *)
Lemma hyphenate_inj (h1 h2 : string) :
  String.length h1 = 32%nat -> String.length h2 = 32%nat ->
  substring 0 8 h1 ++ "-" ++ substring 8 4 h1 ++ "-" ++ substring 12 4 h1
    ++ "-" ++ substring 16 4 h1 ++ "-" ++ substring 20 12 h1
  = substring 0 8 h2 ++ "-" ++ substring 8 4 h2 ++ "-" ++ substring 12 4 h2
    ++ "-" ++ substring 16 4 h2 ++ "-" ++ substring 20 12 h2 ->
  h1 = h2.
Proof.
  intros H1 H2.
  do 32 (destruct h1 as [|? h1]; [discriminate H1 | simpl in H1; apply eq_add_S in H1]).
  destruct h1; [|discriminate H1].
  do 32 (destruct h2 as [|? h2]; [discriminate H2 | simpl in H2; apply eq_add_S in H2]).
  destruct h2; [|discriminate H2].
  simpl. intros H. injection H as <-. repeat f_equal; assumption.
Qed.

Lemma uuid_str_chars (n : N) :
  string_forall (fun a => hex_char a || Ascii.eqb a "-") (uuid_str n) = true.
Proof.
  unfold uuid_str.
  assert (H : forall i j, string_forall (fun a => hex_char a || Ascii.eqb a "-")
                            (substring i j (hex_digits 32 n)) = true).
  { intros i j. apply string_forall_substring.
    apply (string_forall_impl hex_char); [|apply hex_digits_hex_char].
    intros a ->. reflexivity. }
  rewrite !string_forall_app, !H. reflexivity.
Qed.

Lemma hex_char_identifier a : hex_char a = true -> identifier_char a = true.
Proof.
  unfold hex_char, identifier_char. cbv zeta. generalize (N_of_ascii a) as n.
  intros n. rewrite !orb_true_iff, !andb_true_iff, !N.leb_le, N.eqb_eq. lia.
Qed.

Lemma replace_hyphen_identifier (s : string) :
  string_forall (fun a => hex_char a || Ascii.eqb a "-") s = true ->
  identifier (replace "-" "_" s) = true.
Proof.
  unfold identifier. induction s as [|a s IH]; simpl; [reflexivity|].
  intros H. apply andb_true_iff in H as [Ha Hs]. rewrite (IH Hs), andb_true_r.
  destruct (Ascii.eqb a "-") eqn:Heq; [reflexivity|].
  rewrite orb_false_r in Ha. now apply hex_char_identifier.
Qed.

Lemma replace_hyphen_inj (s1 s2 : string) :
  string_forall (fun a => hex_char a || Ascii.eqb a "-") s1 = true ->
  string_forall (fun a => hex_char a || Ascii.eqb a "-") s2 = true ->
  replace "-" "_" s1 = replace "-" "_" s2 -> s1 = s2.
Proof.
  revert s2. induction s1 as [|a1 s1 IH]; intros [|a2 s2]; simpl;
    try discriminate; [reflexivity|].
  intros H1 H2 H. apply andb_true_iff in H1 as [Ha1 Hs1].
  apply andb_true_iff in H2 as [Ha2 Hs2].
  injection H as Hhd Htl. f_equal; [|now apply IH].
  destruct (Ascii.eqb_spec a1 "-") as [->|N1], (Ascii.eqb_spec a2 "-") as [->|N2];
    try reflexivity; try assumption.
  - rewrite orb_false_r in Ha2. subst a2. discriminate Ha2.
  - rewrite orb_false_r in Ha1. subst a1. discriminate Ha1.
Qed.

Lemma make_savepoint_name_identifier (uuid : N) :
  identifier (make_savepoint_name uuid) = true.
Proof.
  unfold make_savepoint_name, identifier. rewrite string_forall_app.
  apply andb_true_iff. split; [reflexivity|].
  apply replace_hyphen_identifier, uuid_str_chars.
Qed.

Lemma append_inj_l (s a b : string) : s ++ a = s ++ b -> a = b.
Proof. induction s as [|c s IH]; simpl; [tauto|]. intros [= H]. auto. Qed.

Lemma make_savepoint_name_inj (u1 u2 : N) :
  (u1 < 2 ^ 128)%N -> (u2 < 2 ^ 128)%N ->
  make_savepoint_name u1 = make_savepoint_name u2 -> u1 = u2.
Proof.
  intros B1 B2 H. unfold make_savepoint_name in H.
  apply append_inj_l in H.
  apply replace_hyphen_inj in H; try apply uuid_str_chars.
  apply hyphenate_inj in H; try apply hex_digits_length.
  apply hex_digits_inj in H.
  change (16 ^ N.of_nat 32)%N with (2 ^ 128)%N in H.
  now rewrite !N.mod_small in H.
Qed.

Lemma make_savepoint_name_inj_mod (u1 u2 : N) :
  make_savepoint_name u1 = make_savepoint_name u2 ->
  (u1 mod 2 ^ 128 = u2 mod 2 ^ 128)%N.
Proof.
  intros H. unfold make_savepoint_name in H.
  apply append_inj_l in H.
  apply replace_hyphen_inj in H; try apply uuid_str_chars.
  apply hyphenate_inj in H; try apply hex_digits_length.
  apply hex_digits_inj in H. exact H.
Qed.

Lemma replace_length (old new : ascii) (s : string) :
  String.length (replace old new s) = String.length s.
Proof. induction s as [|a s IH]; simpl; [reflexivity | now rewrite IH]. Qed.

Lemma append_length (s1 s2 : string) :
  String.length (s1 ++ s2) = (String.length s1 + String.length s2)%nat.
Proof. induction s1 as [|a s1 IH]; simpl; [reflexivity | now rewrite IH]. Qed.

Lemma uuid_str_length (n : N) : String.length (uuid_str n) = 36%nat.
Proof.
  unfold uuid_str. cbv zeta.
  pose proof (hex_digits_length 32 n) as H.
  generalize dependent (hex_digits 32 n). intros h H.
  do 32 (destruct h as [|? h]; [discriminate H | simpl in H; apply eq_add_S in H]).
  destruct h; [|discriminate H]. reflexivity.
Qed.

Lemma make_savepoint_name_length (uuid : N) :
  String.length (make_savepoint_name uuid) = 56%nat.
Proof.
  unfold make_savepoint_name.
  now rewrite append_length, replace_length, uuid_str_length.
Qed.

Lemma make_savepoint_name_bare (uuid : N) :
  bare_identifier (make_savepoint_name uuid) = true.
Proof.
  pose proof (make_savepoint_name_identifier uuid) as Hid.
  pose proof (make_savepoint_name_length uuid) as Hlen.
  revert Hid Hlen.
  change (make_savepoint_name uuid)
    with (String "S" ("TARLETTE_SAVEPOINT_" ++ replace "-" "_" (uuid_str uuid))).
  intros Hid Hlen. unfold bare_identifier. rewrite Hid, Hlen. reflexivity.
Qed.

End SavepointNames.

(** ** Runs in which no collaborator raises *)

Ltac unfold_monad :=
  unfold acquire_connection, release_connection, _compile, try_finally, bind,
    ret, raise, ext_, ext, note, modify_session, get_session, get_tx,
    modify_tx, attr.

Section TraceFacts.

Context {Query Args Item : Type}.
Implicit Types (w : @World Query Args Item) (evs : list (@Event Query Args Item)).

Lemma extend_extend evs1 evs2 w :
  extend evs2 (extend evs1 w) = extend (evs1 ++ evs2) w.
Proof. unfold extend. simpl. now rewrite app_assoc. Qed.

Lemma extend_nil w : extend [] w = w.
Proof. destruct w. unfold extend. simpl. now rewrite app_nil_r. Qed.

Lemma count_app p evs1 evs2 :
  count p (evs1 ++ evs2) = (count p evs1 + count p evs2)%nat.
Proof. induction evs1 as [|e evs1 IH]; simpl; [reflexivity | rewrite IH; lia]. Qed.

End TraceFacts.

Section NoFailure.

Context {Query Args Item Raw Value : Type}.
Variable d : @Driver Query Args Item Raw Value.
Hypothesis never_fails : forall k, fails d k = false.

Abbreviation World := (@World Query Args Item).

Lemma acquire_connection_ok (w : World) :
  acquire_connection d w = (Ok (acquired_conn d w), after_acquire d w).
Proof.
  unfold acquire_connection, acquired_conn, after_acquire, acquire_events.
  unfold_monad. simpl. destruct w as [s h tr]. simpl.
  destruct (conn s) as [c|] eqn:Hc; simpl.
  - unfold extend, set_session, set_conn, set_connection_holders, acquired_conn.
    simpl. now rewrite Hc.
  - rewrite never_fails.
    unfold extend, set_session, log_event, acquired_conn. simpl.
    rewrite Hc, length_app, <- app_assoc. simpl.
    replace (length tr + 1)%nat with (S (length tr)) by lia. reflexivity.
Qed.

Lemma release_connection_ok (w : World) :
  release_connection d w = (Ok tt, after_release w).
Proof.
  unfold release_connection, after_release, release_events.
  unfold_monad. simpl. destruct w as [s h tr]. simpl.
  destruct (connection_holders s - 1 =? 0)%Z; simpl.
  - rewrite never_fails. unfold extend, set_session, log_event. simpl.
    now rewrite <- app_assoc.
  - reflexivity.
Qed.

Lemma ext_ok {A} e (r : nat -> A) (w : World) :
  ext d e r w = (Ok (r (length (trace w))), extend [e] w).
Proof. unfold ext. now rewrite never_fails. Qed.

Lemma executemany_loop_ok cursor (query : Query) (values : list Item) (w : World) :
  executemany_loop d cursor query values w
  = (Ok tt, extend (flat_map (item_events d cursor query) values) w).
Proof.
  revert w. induction values as [|item values IH]; intros w.
  - simpl. now rewrite extend_nil.
  - simpl. unfold _compile, ext_, bind. rewrite !ext_ok.
    unfold item_events at 1.
    destruct (query_compile d (query_values d query item)) as [[sql args] cols].
    rewrite ext_ok, IH, !extend_extend. reflexivity.
Qed.

Lemma item_events_shape cursor (query : Query) (item : Item) :
  exists sql args,
    item_events d cursor query item
    = [QueryValues query item; QueryCompile (query_values d query item);
       CursorExecute cursor sql (Some args)].
Proof.
  unfold item_events.
  destruct (query_compile d (query_values d query item)) as [[sql args] cols].
  eauto.
Qed.

Lemma count_loop_events p cursor (query : Query) (values : list Item) n :
  (forall item sql args,
     count p [QueryValues query item; QueryCompile (query_values d query item);
              CursorExecute cursor sql (Some args)] = n) ->
  count p (flat_map (item_events d cursor query) values) = (n * length values)%nat.
Proof.
  intros Hp. induction values as [|item values IH]; simpl; [lia|].
  destruct (item_events_shape cursor query item) as (sql & args & ->).
  rewrite count_app, Hp, IH. lia.
Qed.

Lemma loop_events_on_cursor cursor (query : Query) (values : list Item) :
  forallb (executes_on cursor) (flat_map (item_events d cursor query) values) = true.
Proof.
  induction values as [|item values IH]; simpl; [reflexivity|].
  destruct (item_events_shape cursor query item) as (sql & args & ->).
  rewrite forallb_app, IH. simpl. now rewrite Nat.eqb_refl.
Qed.

(** C7.  When no collaborator raises, [executemany] on [N] value sets logs:
    one entry of [acquire_connection] (with its pool acquire if the session
    held no connection), one cursor creation, then for each value set in
    order one compilation and one execution on that same cursor, then the
    cursor's close and one entry of [release_connection] (with its pool
    release if this was the only holder).  So there are exactly [N]
    compilations and [N] executions, one lease acquire and one lease release
    that comes after the last execution, and the number of holders is what
    it was; for [N = 0] the lease is acquired and released with no
    execution in between. *)
Theorem executemany_spec (query : Query) (values : list Item) (w : World) :
  exists w' c cursor,
    executemany d query values w = (Ok tt, w') /\
    (let evs := events_since (length (trace w)) w' in
     evs = acquire_events (session w)
           ++ (ConnCursor c
               :: (flat_map (item_events d cursor query) values
                   ++ (CursorClose cursor
                       :: release_events (connection_holders (session w)) (Some c)))) /\
     count is_QueryCompile evs = length values /\
     count is_CursorExecute evs = length values /\
     forallb (executes_on cursor) evs = true /\
     count is_ConnCursor evs = 1%nat /\
     count is_CallAcquire evs = 1%nat /\
     count is_CallRelease evs = 1%nat) /\
    connection_holders (session w') = connection_holders (session w).
Proof.
  unfold executemany, try_finally, bind, ext_.
  rewrite acquire_connection_ok, ext_ok, executemany_loop_ok, ext_ok,
    release_connection_ok.
  set (c := acquired_conn d w).
  set (cursor := conn_cursor_result d _).
  exists (after_release
            (extend [CursorClose cursor]
               (extend (flat_map (item_events d cursor query) values)
                  (extend [ConnCursor c] (after_acquire d w))))), c, cursor.
  split; [reflexivity|]. split.
  - assert (events_since (length (trace w))
              (after_release
                 (extend [CursorClose cursor]
                    (extend (flat_map (item_events d cursor query) values)
                       (extend [ConnCursor c] (after_acquire d w)))))
            = acquire_events (session w)
              ++ (ConnCursor c
                  :: (flat_map (item_events d cursor query) values
                      ++ (CursorClose cursor
                          :: release_events (connection_holders (session w)) (Some c)))))
      as ->.
    { unfold events_since, after_release, after_acquire. simpl.
      replace (connection_holders (session w) + 1 - 1) with
        (connection_holders (session w)) by lia.
      rewrite <- !app_assoc, drop_app_length. reflexivity. }
    split; [reflexivity|].
    unfold acquire_events, release_events.
    rewrite !count_app, forallb_app. simpl.
    rewrite !count_app, forallb_app, loop_events_on_cursor. simpl.
    rewrite (count_loop_events is_QueryCompile _ _ _ 1%nat),
      (count_loop_events is_CursorExecute _ _ _ 1%nat),
      (count_loop_events is_ConnCursor _ _ _ 0%nat),
      (count_loop_events is_CallAcquire _ _ _ 0%nat),
      (count_loop_events is_CallRelease _ _ _ 0%nat) by reflexivity.
    rewrite ?Nat.eqb_refl.
    destruct (conn (session w)), (connection_holders (session w) =? 0)%Z;
      simpl; repeat split; lia.
  - unfold after_release, after_acquire. simpl.
    destruct (_ =? 0)%Z; simpl; lia.
Qed.

Lemma heap_after_acquire (w : World) : heap (after_acquire d w) = heap w.
Proof. reflexivity. Qed.

(** What [start] does on a transaction object that is not yet a root. *)
Lemma start_ok (t : TxRef) (tx : MySQLTransaction) (w : World) :
  heap w !! t = Some tx ->
  is_root tx = false ->
  exists w' c,
    start d t w = (Ok tt, w') /\
    conn (session w') = Some c /\
    connection_holders (session w') = connection_holders (session w) + 1 /\
    has_root_transaction (session w') = true /\
    if has_root_transaction (session w) then
      exists cursor,
        let uuid := uuid4 d (length (trace w ++ acquire_events (session w))) in
        events_since (length (trace w)) w'
        = acquire_events (session w)
          ++ [ConnCursor c;
              CursorExecute cursor
                ("SAVEPOINT " ++ make_savepoint_name uuid)%string None;
              CursorClose cursor] /\
        heap w' !! t = Some {| is_root := false; tx_conn := Some c;
                               savepoint_name := Some (make_savepoint_name uuid) |} /\
        identifier (make_savepoint_name uuid) = true
    else
      events_since (length (trace w)) w'
      = acquire_events (session w) ++ [ConnBegin c] /\
      heap w' !! t = Some {| is_root := true; tx_conn := Some c;
                             savepoint_name := savepoint_name tx |}.
Proof.
  intros Ht Hroot.
  pose proof (lookup_lt_Some _ _ _ Ht) as Hlt.
  unfold start, try_finally, bind, get_session, modify_session, modify_tx,
    get_tx, ret, ext_.
  destruct (has_root_transaction (session w)) eqn:Hflag.
  - rewrite acquire_connection_ok, heap_after_acquire, Ht.
    repeat (simpl; rewrite list_lookup_insert_eq
                     by (rewrite ?length_insert; assumption)).
    simpl. rewrite Hroot. simpl.
    repeat (simpl; rewrite list_lookup_insert_eq
                     by (rewrite ?length_insert; assumption)).
    simpl. rewrite ext_ok.
    repeat (simpl; rewrite list_lookup_insert_eq
                     by (rewrite ?length_insert; assumption)).
    simpl. rewrite !ext_ok. simpl.
    eexists _, (acquired_conn d w). split; [reflexivity|]. simpl.
    repeat split; try assumption.
    eexists. cbv zeta. split; [|split].
    + unfold events_since. simpl. rewrite <- !app_assoc, drop_app_length.
      reflexivity.
    + rewrite list_lookup_insert_eq by (rewrite ?length_insert; assumption).
      unfold set_savepoint_name, set_tx_conn. simpl. now rewrite Hroot.
    + apply make_savepoint_name_identifier.
  - simpl. rewrite Ht. simpl. rewrite acquire_connection_ok.
    repeat (simpl; rewrite list_lookup_insert_eq
                     by (rewrite ?length_insert; assumption)).
    simpl. rewrite ext_ok. simpl.
    eexists _, (acquired_conn d w). split; [reflexivity|]. simpl.
    repeat split.
    + unfold events_since. simpl. rewrite <- !app_assoc, drop_app_length.
      reflexivity.
    + rewrite list_lookup_insert_eq by (rewrite ?length_insert; assumption).
      reflexivity.
Qed.

(** C8.  When no collaborator raises, [start] on a transaction object that
    is not yet marked root takes the lease and then: if the session had no
    root transaction, marks the object root and issues a native [BEGIN] on
    the leased connection; otherwise draws a UUID, stores the name
    [STARLETTE_SAVEPOINT_<uuid with underscores>] and executes
    [SAVEPOINT <name>] on a cursor of the same leased connection, closing
    the cursor.  The name is made of letters, digits and underscores only,
    begins with a letter and is 56 characters long, so it is valid written
    bare.  Distinct 128-bit UUIDs give distinct names, and the names that
    any two such calls of [start] store are different whenever the UUIDs
    the two calls drew are different. *)
Theorem start_spec (t : TxRef) (tx : MySQLTransaction) (w : World) :
  heap w !! t = Some tx ->
  is_root tx = false ->
  (exists w' c,
    start d t w = (Ok tt, w') /\
    conn (session w') = Some c /\
    connection_holders (session w') = connection_holders (session w) + 1 /\
    has_root_transaction (session w') = true /\
    if has_root_transaction (session w) then
      exists cursor,
        let uuid := uuid4 d (length (trace w ++ acquire_events (session w))) in
        events_since (length (trace w)) w'
        = acquire_events (session w)
          ++ [ConnCursor c;
              CursorExecute cursor
                ("SAVEPOINT " ++ make_savepoint_name uuid)%string None;
              CursorClose cursor] /\
        heap w' !! t = Some {| is_root := false; tx_conn := Some c;
                               savepoint_name := Some (make_savepoint_name uuid) |} /\
        identifier (make_savepoint_name uuid) = true /\
        bare_identifier (make_savepoint_name uuid) = true /\
        String.length (make_savepoint_name uuid) = 56%nat
    else
      events_since (length (trace w)) w'
      = acquire_events (session w) ++ [ConnBegin c] /\
      heap w' !! t = Some {| is_root := true; tx_conn := Some c;
                             savepoint_name := savepoint_name tx |}) /\
  (forall u1 u2 : N,
     (u1 < 2 ^ 128)%N -> (u2 < 2 ^ 128)%N ->
     make_savepoint_name u1 = make_savepoint_name u2 -> u1 = u2) /\
  (has_root_transaction (session w) = true ->
   forall (t2 : TxRef) (tx2 : MySQLTransaction) (w2 : World),
     heap w2 !! t2 = Some tx2 -> is_root tx2 = false ->
     has_root_transaction (session w2) = true ->
     let uuid1 := uuid4 d (length (trace w ++ acquire_events (session w))) in
     let uuid2 := uuid4 d (length (trace w2 ++ acquire_events (session w2))) in
     exists w' w2' tx' tx2' name1 name2,
       start d t w = (Ok tt, w') /\
       start d t2 w2 = (Ok tt, w2') /\
       heap w' !! t = Some tx' /\ savepoint_name tx' = Some name1 /\
       heap w2' !! t2 = Some tx2' /\ savepoint_name tx2' = Some name2 /\
       bare_identifier name1 = true /\ bare_identifier name2 = true /\
       ((uuid1 mod 2 ^ 128 <> uuid2 mod 2 ^ 128)%N -> name1 <> name2)).
Proof.
  intros Ht Hroot. split; [|split].
  - destruct (start_ok t tx w Ht Hroot) as (w' & c & Hrun & Hc & Hh & Hflag & Hif).
    exists w', c. repeat (split; [assumption|]).
    destruct (has_root_transaction (session w)); [|exact Hif].
    destruct Hif as (cursor & Hevs & Hheap & Hid).
    exists cursor. cbv zeta. repeat (split; [assumption|]).
    split; [apply make_savepoint_name_bare | apply make_savepoint_name_length].
  - apply make_savepoint_name_inj.
  - intros Hflag t2 tx2 w2 Ht2 Hroot2 Hflag2 uuid1 uuid2.
    destruct (start_ok t tx w Ht Hroot) as (w' & c & Hrun & _ & _ & _ & Hif).
    destruct (start_ok t2 tx2 w2 Ht2 Hroot2)
      as (w2' & c2 & Hrun2 & _ & _ & _ & Hif2).
    rewrite Hflag in Hif. rewrite Hflag2 in Hif2.
    destruct Hif as (cursor & _ & Hheap & _).
    destruct Hif2 as (cursor2 & _ & Hheap2 & _).
    eexists w', w2', _, _, (make_savepoint_name uuid1), (make_savepoint_name uuid2).
    split; [exact Hrun|]. split; [exact Hrun2|].
    split; [exact Hheap|]. split; [reflexivity|].
    split; [exact Hheap2|]. split; [reflexivity|].
    split; [apply make_savepoint_name_bare|].
    split; [apply make_savepoint_name_bare|].
    intros Hne Heq. apply Hne. now apply make_savepoint_name_inj_mod.
Qed.

End NoFailure.

(** ** The lease counter, whatever the pool does *)

Section Lease.

Context {Query Args Item Raw Value : Type}.
Variable d : @Driver Query Args Item Raw Value.

Abbreviation World := (@World Query Args Item).

Lemma holders_after_acquire (w : World) :
  connection_holders (session (snd (acquire_connection d w)))
  = connection_holders (session w) + 1.
Proof.
  unfold_monad. simpl.
  destruct (conn (session w)); simpl; [reflexivity|].
  destruct (fails d _); reflexivity.
Qed.

Lemma holders_after_release (w : World) :
  connection_holders (session (snd (release_connection d w)))
  = connection_holders (session w) - 1.
Proof.
  unfold_monad. simpl.
  destruct (_ =? 0)%Z; simpl; [|reflexivity].
  destruct (fails d _); reflexivity.
Qed.

Lemma holders_run_paired (calls : list LeaseCall) (depth : nat) (w : World) :
  paired depth calls = true ->
  connection_holders (session w) = Z.of_nat depth ->
  connection_holders (session (run_lease d calls w))
  = Z.of_nat (final_depth depth calls).
Proof.
  revert depth w. induction calls as [|[|] calls IH]; intros depth w Hp Hw.
  - assumption.
  - simpl in *. apply IH; [assumption|].
    rewrite holders_after_acquire, Hw. lia.
  - simpl in *. destruct depth as [|depth]; [discriminate|].
    apply IH; [assumption|].
    rewrite holders_after_release, Hw. lia.
Qed.

Lemma paired_take (calls : list LeaseCall) (depth n : nat) :
  paired depth calls = true -> paired depth (take n calls) = true.
Proof.
  revert depth n. induction calls as [|[|] calls IH]; intros depth [|n] Hp;
    simpl in *; try reflexivity.
  - now apply IH.
  - destruct depth; [discriminate|]. now apply IH.
Qed.

(** C2, as the code has it.  The counter is not guarded: called with no
    holder, [release_connection] returns normally whatever the driver does,
    leaves the counter at -1, and touches neither the pool nor the stored
    connection.  The counter stays non-negative at every point of a run from
    a new session in which each release is paired with an earlier
    acquire. *)
Theorem release_connection_unguarded :
  (forall w : World,
     connection_holders (session w) = 0 ->
     exists w',
       release_connection d w = (Ok tt, w') /\
       connection_holders (session w') = -1 /\
       conn (session w') = conn (session w) /\
       events_since (length (trace w)) w' = [CallRelease]) /\
  (forall (calls : list LeaseCall) (n : nat) (rollback_isolation : bool),
     paired 0 calls = true ->
     0 <= connection_holders
            (session (run_lease d (take n calls) (Session_init rollback_isolation)))).
Proof.
  split.
  - intros w Hw. unfold_monad. simpl. rewrite Hw. simpl.
    eexists. split; [reflexivity|]. simpl. repeat split.
    unfold events_since. simpl. now rewrite drop_app_length.
  - intros calls n b Hp.
    rewrite (holders_run_paired (take n calls) 0); [lia| |now destruct b].
    now apply paired_take.
Qed.

Hypothesis never_fails : forall k, fails d k = false.

Lemma acquire_preserves_invariant (w : World) :
  lease_invariant (session w) ->
  0 <= connection_holders (session w) ->
  lease_invariant (session (snd (acquire_connection d w))).
Proof.
  unfold lease_invariant. intros Hinv Hpos.
  rewrite acquire_connection_ok by assumption. simpl. split; [lia|discriminate].
Qed.

Lemma release_preserves_invariant (w : World) :
  lease_invariant (session w) ->
  lease_invariant (session (snd (release_connection d w))).
Proof.
  unfold lease_invariant. intros Hinv.
  rewrite release_connection_ok by assumption. simpl.
  destruct (connection_holders (session w) - 1 =? 0)%Z eqn:Hz; simpl.
  - apply Z.eqb_eq in Hz. split; [congruence|lia].
  - apply Z.eqb_neq in Hz. rewrite Hinv. lia.
Qed.

Lemma run_paired_invariant (calls : list LeaseCall) (depth : nat) (w : World) :
  paired depth calls = true ->
  connection_holders (session w) = Z.of_nat depth ->
  lease_invariant (session w) ->
  lease_invariant (session (run_lease d calls w)).
Proof.
  revert depth w. induction calls as [|[|] calls IH]; intros depth w Hp Hw Hinv.
  - assumption.
  - simpl in *. apply (IH (S depth)); [assumption| |].
    + rewrite holders_after_acquire, Hw. lia.
    + apply acquire_preserves_invariant; [assumption|lia].
  - simpl in *. destruct depth as [|depth]; [discriminate|].
    apply (IH depth); [assumption| |].
    + rewrite holders_after_release, Hw. lia.
    + now apply release_preserves_invariant.
Qed.

(** C4, as the code has it.  When the pool does not raise, the invariant
    "a connection is stored iff the number of holders is positive" is
    preserved by every [release_connection] call and by every
    [acquire_connection] call made with a non-negative number of holders;
    and after a balanced sequence of calls on a new session (each release
    paired with an earlier acquire, none left held) the number of holders
    is 0 and no connection is stored. *)
Theorem lease_invariant_preserved :
  (forall w : World,
     lease_invariant (session w) ->
     0 <= connection_holders (session w) ->
     lease_invariant (session (snd (acquire_connection d w)))) /\
  (forall w : World,
     lease_invariant (session w) ->
     lease_invariant (session (snd (release_connection d w)))) /\
  (forall (calls : list LeaseCall) (rollback_isolation : bool),
     balanced calls = true ->
     let w' := run_lease d calls (Session_init rollback_isolation) in
     connection_holders (session w') = 0 /\ conn (session w') = None).
Proof.
  split; [exact acquire_preserves_invariant|].
  split; [exact release_preserves_invariant|].
  intros calls b Hbal w'. unfold balanced in Hbal.
  apply andb_true_iff in Hbal as [Hp Hd]. apply Nat.eqb_eq in Hd.
  assert (Hfresh : lease_invariant (session (Session_init b : World))).
  { destruct b; unfold lease_invariant; simpl; (split; [congruence|lia]). }
  assert (Hzero : connection_holders (session (Session_init b : World)) = Z.of_nat 0).
  { now destruct b. }
  pose proof (holders_run_paired calls 0 _ Hp Hzero) as Hh.
  pose proof (run_paired_invariant calls 0 _ Hp Hzero Hfresh) as Hinv.
  fold w' in Hh, Hinv. rewrite Hd in Hh. simpl in Hh. split; [assumption|].
  unfold lease_invariant in Hinv. rewrite Hh in Hinv.
  destruct (conn (session w')); [|reflexivity].
  exfalso. assert (0 < 0) by (apply Hinv; discriminate). lia.
Qed.

End Lease.

(** ** What the transaction methods do to the root bookkeeping, whatever
    the driver does *)

Section Preservation.

Context {Query Args Item Raw Value : Type}.
Variable d : @Driver Query Args Item Raw Value.

Abbreviation World := (@World Query Args Item).
Abbreviation M := (@M Query Args Item).

Section View.

Context {V : Type}.
Variable view : World -> V.
Hypothesis view_log : forall e w, view (log_event e w) = view w.
Hypothesis view_conn : forall c w,
  view (set_session (set_conn c (session w)) w) = view w.
Hypothesis view_holders : forall n w,
  view (set_session (set_connection_holders n (session w)) w) = view w.

Lemma preserves_ret {A} (a : A) : preserves view (ret a : M A).
Proof. intros w. reflexivity. Qed.

Lemma preserves_raise {A} e : preserves view (raise e : M A).
Proof. intros w. reflexivity. Qed.

Lemma preserves_bind {A B} (m : M A) (k : A -> M B) :
  preserves view m -> (forall a, preserves view (k a)) ->
  preserves view (bind m k).
Proof.
  intros Hm Hk w. unfold bind. specialize (Hm w).
  destruct (m w) as [[a|e] w1]; simpl in *; [|assumption].
  now rewrite Hk.
Qed.

Lemma preserves_try_finally {A} (body : M A) (fin : M unit) :
  preserves view body -> preserves view fin ->
  preserves view (try_finally body fin).
Proof.
  intros Hb Hf w. unfold try_finally. specialize (Hb w).
  destruct (body w) as [r w1]. specialize (Hf w1).
  destruct (fin w1) as [[u|e] w2]; simpl in *; congruence.
Qed.

Lemma preserves_ext {A} e (r : nat -> A) : preserves view (ext d e r).
Proof. intros w. unfold ext. destruct (fails d _); apply view_log. Qed.

Lemma preserves_note e : preserves view (note e : M unit).
Proof. intros w. apply view_log. Qed.

Lemma preserves_get_session : preserves view (get_session : M _).
Proof. intros w. reflexivity. Qed.

Lemma preserves_get_tx t : preserves view (get_tx t : M _).
Proof. intros w. unfold get_tx. destruct (heap w !! t); reflexivity. Qed.

Lemma preserves_attr {A} n (o : option A) : preserves view (attr n o : M A).
Proof. destruct o; [apply preserves_ret | apply preserves_raise]. Qed.

Lemma preserves_acquire_connection : preserves view (acquire_connection d).
Proof.
  unfold acquire_connection.
  apply preserves_bind; [apply preserves_note | intros _].
  apply preserves_bind; [intros w; apply view_holders | intros _].
  apply preserves_bind; [apply preserves_get_session | intros s].
  destruct (conn s); [apply preserves_ret|].
  apply preserves_bind; [apply preserves_ext | intros c].
  apply preserves_bind; [intros w; apply view_conn | intros _].
  apply preserves_ret.
Qed.

Lemma preserves_release_connection : preserves view (release_connection d).
Proof.
  unfold release_connection.
  apply preserves_bind; [apply preserves_note | intros _].
  apply preserves_bind; [intros w; apply view_holders | intros _].
  apply preserves_bind; [apply preserves_get_session | intros s].
  destruct (_ =? 0)%Z; [|apply preserves_ret].
  apply preserves_bind; [apply preserves_ext | intros _].
  intros w. apply view_conn.
Qed.

(** A cursor opened on [c], one statement, the cursor closed. *)
Lemma preserves_statement (o : option Conn) (body : Cursor -> M unit) :
  (forall cursor, preserves view (body cursor)) ->
  preserves view
    (bind (attr "conn" o)
       (fun c => bind (ext d (ConnCursor c) (conn_cursor_result d))
          (fun cursor => try_finally (body cursor) (ext_ d (CursorClose cursor))))).
Proof.
  intros Hbody.
  apply preserves_bind; [apply preserves_attr | intros c].
  apply preserves_bind; [apply preserves_ext | intros cursor].
  apply preserves_try_finally; [apply Hbody | apply preserves_ext].
Qed.

End View.

Lemma bind_ok {A B} (m : M A) (k : A -> M B) (w : World) a w1 :
  m w = (Ok a, w1) -> bind m k w = k a w1.
Proof. intros H. unfold bind. now rewrite H. Qed.

Lemma bind_get_tx {A} t tx (k : MySQLTransaction -> M A) (w : World) :
  heap w !! t = Some tx -> bind (get_tx t) k w = k tx w.
Proof. intros H. unfold bind, get_tx. now rewrite H. Qed.

Lemma preserves_modify_tx t (f : MySQLTransaction -> MySQLTransaction) :
  (forall x, is_root (f x) = is_root x) ->
  preserves root_state (modify_tx t f : M unit).
Proof.
  intros Hf w. unfold modify_tx.
  destruct (heap w !! t) as [x|] eqn:Hx; [|reflexivity].
  unfold root_state, roots. simpl. f_equal.
  rewrite list_fmap_insert, Hf. apply list_insert_id.
  now rewrite list_lookup_fmap, Hx.
Qed.

(** [commit] and [rollback] never change which transactions are roots. *)
Lemma commit_roots t : preserves roots (commit d t).
Proof.
  unfold commit.
  apply preserves_bind; [now apply preserves_get_tx | intros me].
  apply preserves_bind; [| intros _; now apply preserves_release_connection].
  destruct (is_root me).
  - apply preserves_bind; [now apply preserves_attr | intros c].
    apply preserves_bind; [now apply preserves_ext | intros _].
    intros w. reflexivity.
  - apply preserves_statement; [reflexivity|]. intros cursor.
    apply preserves_bind; [now apply preserves_attr | intros sp].
    now apply preserves_ext.
Qed.

Lemma rollback_roots t : preserves roots (rollback d t).
Proof.
  unfold rollback.
  apply preserves_bind; [now apply preserves_get_tx | intros me].
  apply preserves_bind; [| intros _; now apply preserves_release_connection].
  destruct (is_root me).
  - apply preserves_bind; [now apply preserves_attr | intros c].
    apply preserves_bind; [now apply preserves_ext | intros _].
    intros w. reflexivity.
  - apply preserves_statement; [reflexivity|]. intros cursor.
    apply preserves_bind; [now apply preserves_attr | intros sp].
    now apply preserves_ext.
Qed.

(** On a transaction that is not a root they leave the session's flag
    alone as well. *)
Lemma commit_nonroot t tx (w : World) :
  heap w !! t = Some tx -> is_root tx = false ->
  root_state (snd (commit d t w)) = root_state w.
Proof.
  intros Htx Hroot. unfold commit. rewrite (bind_get_tx _ _ _ _ Htx), Hroot.
  apply preserves_bind; [| intros _; now apply preserves_release_connection].
  apply preserves_statement; [reflexivity|]. intros cursor.
  apply preserves_bind; [now apply preserves_attr | intros sp].
  now apply preserves_ext.
Qed.

Lemma rollback_nonroot t tx (w : World) :
  heap w !! t = Some tx -> is_root tx = false ->
  root_state (snd (rollback d t w)) = root_state w.
Proof.
  intros Htx Hroot. unfold rollback. rewrite (bind_get_tx _ _ _ _ Htx), Hroot.
  apply preserves_bind; [| intros _; now apply preserves_release_connection].
  apply preserves_statement; [reflexivity|]. intros cursor.
  apply preserves_bind; [now apply preserves_attr | intros sp].
  now apply preserves_ext.
Qed.

(** What follows the root decision in [start]. *)
Lemma start_rest t :
  preserves root_state
    (bind (acquire_connection d) (fun c =>
       bind (modify_tx t (set_tx_conn c)) (fun _ =>
         bind (get_tx t) (fun me =>
           if is_root me then
             bind (attr "conn" (tx_conn me)) (fun c => ext_ d (ConnBegin c))
           else
             bind (fun w => (Ok (length (trace w)), w)) (fun k =>
               bind (modify_tx t
                       (set_savepoint_name (make_savepoint_name (uuid4 d k))))
                 (fun _ =>
                   bind (get_tx t) (fun me =>
                     bind (attr "conn" (tx_conn me)) (fun c =>
                       bind (ext d (ConnCursor c) (conn_cursor_result d))
                         (fun cursor =>
                           try_finally
                             (bind (get_tx t) (fun me =>
                                bind (attr "savepoint_name" (savepoint_name me))
                                  (fun sp =>
                                     ext_ d (CursorExecute cursor
                                               ("SAVEPOINT " ++ sp)%string None))))
                             (ext_ d (CursorClose cursor))))))))))).
Proof.
  apply preserves_bind; [now apply preserves_acquire_connection | intros c].
  apply preserves_bind; [now apply preserves_modify_tx | intros _].
  apply preserves_bind; [now apply preserves_get_tx | intros me].
  destruct (is_root me).
  - apply preserves_bind; [now apply preserves_attr | intros c'].
    now apply preserves_ext.
  - apply preserves_bind; [intros w; reflexivity | intros k].
    apply preserves_bind; [now apply preserves_modify_tx | intros _].
    apply preserves_bind; [now apply preserves_get_tx | intros me'].
    apply preserves_statement; [reflexivity|]. intros cursor.
    apply preserves_bind; [now apply preserves_get_tx | intros me''].
    apply preserves_bind; [now apply preserves_attr | intros sp].
    now apply preserves_ext.
Qed.

(** [start] sets the flag and makes the transaction a root when the flag
    was clear, and changes neither when it was set. *)
Lemma start_root_state t tx (w : World) :
  heap w !! t = Some tx ->
  root_state (snd (start d t w))
  = (true, if has_root_transaction (session w) then roots w
           else <[t := true]> (roots w)).
Proof.
  intros Htx. unfold start.
  change (bind get_session ?k w) with (k (session w) w). cbv beta.
  destruct (has_root_transaction (session w)) eqn:Hflag.
  - change (bind (ret tt) ?k w) with (k tt w). cbv beta.
    rewrite start_rest. unfold root_state. now rewrite Hflag.
  - set (w1 := set_heap (<[t := set_is_root true tx]> (heap w))
                 (set_session (set_has_root_transaction true (session w)) w)).
    assert (Hpre : bind (modify_session (set_has_root_transaction true))
                     (fun _ => modify_tx t (set_is_root true)) w = (Ok tt, w1)).
    { unfold bind, modify_session, modify_tx. simpl. now rewrite Htx. }
    rewrite (bind_ok _ _ w tt w1 Hpre), start_rest.
    unfold root_state, roots. simpl. now rewrite list_fmap_insert.
Qed.

End Preservation.

(** ** Nested transactions on one session *)

Section Nesting.

Context {Query Args Item Raw Value : Type}.
Variable d : @Driver Query Args Item Raw Value.

Abbreviation World := (@World Query Args Item).
Abbreviation Run := (@Run Query Args Item).

Lemma roots_length (w : World) : length (roots w) = length (heap w).
Proof. apply length_fmap. Qed.

Lemma roots_lookup_heap (w : World) t b :
  roots w !! t = Some b -> exists tx, heap w !! t = Some tx /\ is_root tx = b.
Proof.
  unfold roots. rewrite list_lookup_fmap.
  destruct (heap w !! t); simpl; [intros [= <-]; eauto | discriminate].
Qed.

Lemma is_root_of_roots (r : Run) t :
  is_root_of r t = match roots (world r) !! t with Some b => b | None => false end.
Proof.
  unfold is_root_of, roots. rewrite list_lookup_fmap.
  now destruct (heap (world r) !! t).
Qed.

Lemma step_New (r : Run) :
  root_flag (step d r New) = root_flag r /\
  roots (world (step d r New)) = roots (world r) ++ [false].
Proof.
  unfold root_flag, roots. simpl. split; [reflexivity|].
  now rewrite fmap_app.
Qed.

Lemma step_Start (r : Run) t :
  (t < length (heap (world r)))%nat ->
  root_flag (step d r (Start t)) = true /\
  roots (world (step d r (Start t)))
  = if root_flag r then roots (world r) else <[t := true]> (roots (world r)).
Proof.
  intros Hlt. apply lookup_lt_is_Some in Hlt as [tx Htx].
  pose proof (start_root_state d t tx (world r) Htx) as H.
  unfold root_state in H. injection H as Hflag Hroots.
  unfold root_flag. simpl. auto.
Qed.

Lemma step_finish (r : Run) c t :
  c = Commit t \/ c = Rollback t ->
  roots (world (step d r c)) = roots (world r) /\
  (roots (world r) !! t = Some false -> root_flag (step d r c) = root_flag r).
Proof.
  intros [-> | ->]; simpl; (split; [first [apply commit_roots | apply rollback_roots]|]);
    intros Hnr; apply roots_lookup_heap in Hnr as (tx & Htx & Hroot).
  - pose proof (commit_nonroot d t tx _ Htx Hroot) as H.
    unfold root_state in H. now injection H.
  - pose proof (rollback_nonroot d t tx _ Htx Hroot) as H.
    unfold root_state in H. now injection H.
Qed.

Lemma run_invariant_initial b : run_invariant (initial b : Run).
Proof.
  destruct b; unfold run_invariant, initial, roots; simpl.
  - split; [reflexivity|]. split.
    + intros [|t]; simpl; [reflexivity | discriminate].
    + intros [|t]; simpl; discriminate.
  - split; [reflexivity|]. split; intros t; discriminate.
Qed.

Lemma run_invariant_step (r : Run) c :
  run_invariant r -> allowed c (phases r) = true -> run_invariant (step d r c).
Proof.
  intros (Hlen & Hun & Hopen) Hc.
  destruct c as [|t0|t0|t0]; simpl in Hc.
  - (* New *)
    destruct (step_New r) as [Hflag Hroots].
    unfold run_invariant. rewrite Hflag, Hroots.
    change (phases (step d r New)) with (phases r ++ [Unstarted]).
    change (flag_setter (step d r New)) with (flag_setter r).
    split; [|split].
    + rewrite <- roots_length, Hroots, !length_app, roots_length. simpl. lia.
    + intros t Ht. destruct (decide (t < length (phases r))%nat) as [Hin|Hout].
      * rewrite lookup_app_l in Ht by assumption.
        rewrite lookup_app_l by (rewrite roots_length; lia). auto.
      * apply lookup_lt_Some in Ht as Hl. rewrite length_app in Hl. simpl in Hl.
        assert (t = length (roots (world r))) as -> by (rewrite roots_length; lia).
        rewrite lookup_app_r by lia. now rewrite Nat.sub_diag.
    + intros t Hr Hp. destruct (decide (t < length (phases r))%nat) as [Hin|Hout].
      * rewrite lookup_app_l in Hp by assumption.
        rewrite lookup_app_l in Hr by (rewrite roots_length; lia). auto.
      * apply lookup_lt_Some in Hp as Hl. rewrite length_app in Hl. simpl in Hl.
        assert (t = length (roots (world r))) as -> by (rewrite roots_length; lia).
        rewrite lookup_app_r in Hr by lia. rewrite Nat.sub_diag in Hr.
        discriminate.
  - (* Start *)
    destruct (phases r !! t0) as [[| |]|] eqn:Hp0; try discriminate.
    assert (Hlt : (t0 < length (heap (world r)))%nat).
    { rewrite <- Hlen. eapply lookup_lt_Some; eauto. }
    destruct (step_Start r t0 Hlt) as [Hflag Hroots].
    pose proof (Hun _ Hp0) as Hr0.
    unfold run_invariant. rewrite Hflag, Hroots.
    change (phases (step d r (Start t0))) with (<[t0 := Active]> (phases r)).
    change (flag_setter (step d r (Start t0)))
      with (if root_flag r then flag_setter r else Some t0).
    split; [|split].
    + rewrite <- roots_length, Hroots, length_insert.
      destruct (root_flag r); rewrite ?length_insert, roots_length; assumption.
    + intros t Ht. apply list_lookup_insert_Some in Ht as [(_ & [=] & _)|[Hne Ht]].
      destruct (root_flag r); [|rewrite list_lookup_insert_ne by assumption]; auto.
    + intros t Hr Hp. apply list_lookup_insert_Some in Hp as [(<- & _ & _)|[Hne Hp]].
      * destruct (root_flag r); [congruence|auto].
      * assert (Hr' : roots (world r) !! t = Some true).
        { destruct (root_flag r); [assumption|].
          now rewrite list_lookup_insert_ne in Hr. }
        destruct (Hopen _ Hr' Hp) as [Hf Hs]. now rewrite Hf.
  - (* Commit *)
    destruct (phases r !! t0) as [[| |]|] eqn:Hp0; try discriminate.
    destruct (step_finish r (Commit t0) t0 (or_introl eq_refl)) as [Hroots Hflag].
    unfold run_invariant. rewrite Hroots.
    change (phases (step d r (Commit t0))) with (<[t0 := Terminated]> (phases r)).
    change (flag_setter (step d r (Commit t0))) with (flag_setter r).
    split; [|split].
    + rewrite <- roots_length, Hroots, length_insert, roots_length. assumption.
    + intros t Ht. apply list_lookup_insert_Some in Ht as [(_ & [=] & _)|[Hne Ht]]. auto.
    + intros t Hr Hp. apply list_lookup_insert_Some in Hp as [(_ & [=] & _)|[Hne Hp]].
      destruct (Hopen _ Hr Hp) as [Hf Hs]. split; [|assumption].
      assert (Hl0 : (t0 < length (roots (world r)))%nat).
      { rewrite roots_length, <- Hlen. eapply lookup_lt_Some; eauto. }
      apply lookup_lt_is_Some in Hl0 as [[|] Hb0].
      * destruct (Hopen _ Hb0 Hp0) as [_ Hs0]. congruence.
      * now rewrite Hflag.
  - (* Rollback *)
    destruct (phases r !! t0) as [[| |]|] eqn:Hp0; try discriminate.
    destruct (step_finish r (Rollback t0) t0 (or_intror eq_refl)) as [Hroots Hflag].
    unfold run_invariant. rewrite Hroots.
    change (phases (step d r (Rollback t0))) with (<[t0 := Terminated]> (phases r)).
    change (flag_setter (step d r (Rollback t0))) with (flag_setter r).
    split; [|split].
    + rewrite <- roots_length, Hroots, length_insert, roots_length. assumption.
    + intros t Ht. apply list_lookup_insert_Some in Ht as [(_ & [=] & _)|[Hne Ht]]. auto.
    + intros t Hr Hp. apply list_lookup_insert_Some in Hp as [(_ & [=] & _)|[Hne Hp]].
      destruct (Hopen _ Hr Hp) as [Hf Hs]. split; [|assumption].
      assert (Hl0 : (t0 < length (roots (world r)))%nat).
      { rewrite roots_length, <- Hlen. eapply lookup_lt_Some; eauto. }
      apply lookup_lt_is_Some in Hl0 as [[|] Hb0].
      * destruct (Hopen _ Hb0 Hp0) as [_ Hs0]. congruence.
      * now rewrite Hflag.
Qed.

Lemma run_invariant_run (calls : list Call) (r : Run) :
  run_invariant r -> protocol (phases r) calls = true ->
  run_invariant (run_calls d calls r).
Proof.
  revert r. induction calls as [|c calls IH]; intros r Hinv Hp; [assumption|].
  simpl in Hp. apply andb_true_iff in Hp as [Hc Hp].
  simpl. apply IH; [now apply run_invariant_step | assumption].
Qed.

Lemma protocol_app (calls1 calls2 : list Call) (r : Run) :
  protocol (phases r) (calls1 ++ calls2) = true ->
  protocol (phases r) calls1 = true /\
  protocol (phases (run_calls d calls1 r)) calls2 = true.
Proof.
  revert r. induction calls1 as [|c calls1 IH]; intros r Hp; [auto|].
  simpl in Hp. apply andb_true_iff in Hp as [Hc Hp].
  destruct (IH (step d r c) Hp) as [H1 H2]. simpl. rewrite Hc. auto.
Qed.

Lemma open_root_inv (r : Run) t :
  open_root r t = true ->
  roots (world r) !! t = Some true /\ phases r !! t = Some Active.
Proof.
  unfold open_root. rewrite is_root_of_roots. intros H.
  apply andb_true_iff in H as [Hr Hp].
  destruct (roots (world r) !! t) as [[|]|]; try discriminate.
  destruct (phases r !! t) as [[| |]|]; try discriminate. auto.
Qed.

(** C3, as the code has it.  Take any run on one session that follows the
    contract of the transaction life cycle ([start] only on a transaction
    not yet started, [commit] and [rollback] only on one that was started
    and not yet terminated), whatever the driver does, and look at any call
    [c] of it, made in state [r] and leading to state [r'].  Then: at most
    one root transaction is open in [r']; a transaction is a root in [r']
    exactly if it was one in [r] or [c] is its [start] and the session's
    flag was clear; a call on a transaction that is not a root afterwards
    leaves the flag as it was; if [c] clears the flag, it is the [commit] or
    [rollback] of the transaction that had set it; and if [c] sets the flag,
    it is the [start] of the transaction recorded as having set it. *)
Theorem root_bookkeeping (rollback_isolation : bool) (calls : list Call) (c : Call) :
  protocol (phases (initial rollback_isolation : Run)) (calls ++ [c]) = true ->
  let r := run_calls d calls (initial rollback_isolation) in
  let r' := step d r c in
  (forall t1 t2, open_root r' t1 = true -> open_root r' t2 = true -> t1 = t2) /\
  (forall t, is_root_of r' t = true <->
             is_root_of r t = true \/ (c = Start t /\ root_flag r = false)) /\
  (forall t, c = Start t \/ c = Commit t \/ c = Rollback t ->
             is_root_of r' t = false -> root_flag r' = root_flag r) /\
  (root_flag r = true -> root_flag r' = false ->
   exists t, (c = Commit t \/ c = Rollback t) /\ flag_setter r = Some t) /\
  (root_flag r = false -> root_flag r' = true ->
   exists t, c = Start t /\ flag_setter r' = Some t).
Proof.
  intros Hproto r r'.
  apply protocol_app in Hproto as [Hcalls Hc]. fold r in Hc.
  simpl in Hc. rewrite andb_true_r in Hc.
  assert (Hinv : run_invariant r).
  { apply run_invariant_run; [apply run_invariant_initial | assumption]. }
  assert (Hinv' : run_invariant r') by now apply run_invariant_step.
  destruct Hinv as (Hlen & Hun & Hopen).
  split.
  { intros t1 t2 H1 H2. apply open_root_inv in H1 as [Hr1 Hp1].
    apply open_root_inv in H2 as [Hr2 Hp2].
    destruct Hinv' as (_ & _ & Hopen').
    destruct (Hopen' _ Hr1 Hp1) as [_ Hs1].
    destruct (Hopen' _ Hr2 Hp2) as [_ Hs2]. congruence. }
  assert (Hfinish : forall t0, c = Commit t0 \/ c = Rollback t0 ->
    phases r !! t0 = Some Active /\
    roots (world r') = roots (world r) /\
    exists b, roots (world r) !! t0 = Some b /\
      (b = false -> root_flag r' = root_flag r) /\
      (b = true -> root_flag r = true /\ flag_setter r = Some t0)).
  { intros t0 Hc0.
    assert (Hp0 : phases r !! t0 = Some Active).
    { destruct Hc0 as [-> | ->]; simpl in Hc;
        destruct (phases r !! t0) as [[| |]|]; try discriminate; reflexivity. }
    destruct (step_finish r c t0 Hc0) as [Hroots Hflag].
    split; [assumption|]. split; [assumption|].
    assert (Hl0 : (t0 < length (roots (world r)))%nat).
    { rewrite roots_length, <- Hlen. eapply lookup_lt_Some; eauto. }
    apply lookup_lt_is_Some in Hl0 as [b Hb]. exists b.
    split; [assumption|]. split.
    - intros ->. auto.
    - intros ->. auto. }
  assert (Hstart : forall t0, c = Start t0 ->
    roots (world r) !! t0 = Some false /\
    root_flag r' = true /\
    roots (world r') = (if root_flag r then roots (world r)
                        else <[t0 := true]> (roots (world r))) /\
    flag_setter r' = if root_flag r then flag_setter r else Some t0).
  { intros t0 ->. simpl in Hc.
    destruct (phases r !! t0) as [[| |]|] eqn:Hp0; try discriminate.
    assert (Hlt : (t0 < length (heap (world r)))%nat).
    { rewrite <- Hlen. eapply lookup_lt_Some; eauto. }
    destruct (step_Start r t0 Hlt) as [Hflag Hroots]. auto. }
  split; [|split; [|split]].
  - (* which transactions are roots *)
    intros t. rewrite !is_root_of_roots. destruct c as [|t0|t0|t0].
    + destruct (step_New r) as [_ Hroots]. fold r' in Hroots. rewrite Hroots.
      destruct (decide (t < length (roots (world r)))%nat) as [Hin|Hout].
      * rewrite lookup_app_l by assumption.
        split; [auto | intros [H|[[=] _]]; assumption].
      * rewrite (lookup_ge_None_2 (roots (world r))) by lia.
        split; [|intros [[=]|[[=] _]]].
        destruct (decide (t = length (roots (world r)))) as [->|Hne].
        -- rewrite lookup_app_r by lia. rewrite Nat.sub_diag. discriminate.
        -- rewrite lookup_ge_None_2; [discriminate|].
           rewrite length_app. simpl. lia.
    + destruct (Hstart t0 eq_refl) as (Hr0 & _ & Hroots & _). rewrite Hroots.
      destruct (root_flag r) eqn:Hf.
      * split; [auto | intros [H|[_ [=]]]; assumption].
      * destruct (decide (t0 = t)) as [->|Hne].
        -- rewrite list_lookup_insert_eq by (eapply lookup_lt_Some; eauto).
           split; auto.
        -- rewrite list_lookup_insert_ne by assumption.
           split; [auto | intros [H|[[=] _]]; [assumption|congruence]].
    + destruct (Hfinish t0 (or_introl eq_refl)) as (_ & Hroots & _).
      rewrite Hroots. split; [auto | intros [H|[[=] _]]; assumption].
    + destruct (Hfinish t0 (or_intror eq_refl)) as (_ & Hroots & _).
      rewrite Hroots. split; [auto | intros [H|[[=] _]]; assumption].
  - (* a transaction that is not a root leaves the flag alone *)
    intros t Hc0. rewrite is_root_of_roots. intros Hnr.
    destruct Hc0 as [-> | Hc0].
    + destruct (Hstart t eq_refl) as (Hr0 & Hflag & Hroots & _).
      rewrite Hroots in Hnr. destruct (root_flag r); [congruence|].
      rewrite list_lookup_insert_eq in Hnr by (eapply lookup_lt_Some; eauto).
      discriminate.
    + destruct (Hfinish t Hc0) as (_ & Hroots & b & Hb & Hfalse & _).
      rewrite Hroots, Hb in Hnr. auto.
  - (* who clears the flag *)
    intros Hf Hf'. destruct c as [|t0|t0|t0].
    + destruct (step_New r) as [Hflag _]. fold r' in Hflag. congruence.
    + destruct (Hstart t0 eq_refl) as (_ & Hflag & _). congruence.
    + destruct (Hfinish t0 (or_introl eq_refl)) as (_ & _ & [|] & _ & Hfalse & Htrue).
      * exists t0. split; [auto | now apply Htrue].
      * rewrite Hfalse in Hf' by reflexivity. congruence.
    + destruct (Hfinish t0 (or_intror eq_refl)) as (_ & _ & [|] & _ & Hfalse & Htrue).
      * exists t0. split; [auto | now apply Htrue].
      * rewrite Hfalse in Hf' by reflexivity. congruence.
  - (* who sets the flag *)
    intros Hf Hf'. destruct c as [|t0|t0|t0].
    + destruct (step_New r) as [Hflag _]. fold r' in Hflag. congruence.
    + destruct (Hstart t0 eq_refl) as (_ & _ & _ & Hsetter).
      exists t0. rewrite Hsetter, Hf. auto.
    + destruct (Hfinish t0 (or_introl eq_refl)) as (_ & _ & [|] & _ & Hfalse & Htrue).
      * destruct Htrue; congruence.
      * rewrite Hfalse in Hf' by reflexivity. congruence.
    + destruct (Hfinish t0 (or_intror eq_refl)) as (_ & _ & [|] & _ & Hfalse & Htrue).
      * destruct Htrue; congruence.
      * rewrite Hfalse in Hf' by reflexivity. congruence.
Qed.

End Nesting.

(** ** Terminating a transaction more than once, or before it is started *)

Section Termination.

Context {Query Args Item Raw Value : Type}.
Variable d : @Driver Query Args Item Raw Value.
Hypothesis never_fails : forall k, fails d k = false.

Abbreviation World := (@World Query Args Item).




End Termination.

(** ** When a collaborator raises *)

Section Raising.

Context {Query Args Item Raw Value : Type}.
Variable d : @Driver Query Args Item Raw Value.

Abbreviation World := (@World Query Args Item).

(** A root transaction whose native COMMIT or ROLLBACK raises: the error is
    what the call returns, and nothing but the attempt is added to the
    world; in particular the lease is still held. *)
Lemma commit_root_raises t tx c (w : World) :
  heap w !! t = Some tx -> is_root tx = true -> tx_conn tx = Some c ->
  fails d (length (trace w)) = true ->
  commit d t w = (Raise (DriverError (length (trace w))), extend [ConnCommit c] w).
Proof.
  intros Htx Hroot Hc Hfail. unfold commit.
  rewrite (bind_get_tx _ _ _ _ Htx), Hroot, Hc.
  unfold bind, attr, ret, ext_, ext. now rewrite Hfail.
Qed.

Lemma rollback_root_raises t tx c (w : World) :
  heap w !! t = Some tx -> is_root tx = true -> tx_conn tx = Some c ->
  fails d (length (trace w)) = true ->
  rollback d t w = (Raise (DriverError (length (trace w))), extend [ConnRollback c] w).
Proof.
  intros Htx Hroot Hc Hfail. unfold rollback.
  rewrite (bind_get_tx _ _ _ _ Htx), Hroot, Hc.
  unfold bind, attr, ret, ext_, ext. now rewrite Hfail.
Qed.

(** [execute] on a session that already holds a connection, when the
    creation of the cursor raises: one more holder is counted and no
    release is entered. *)
Lemma execute_cursor_raises (query : Query) c (w : World) :
  conn (session w) = Some c ->
  fails d (length (trace w)) = false ->
  fails d (length (trace w) + 2) = true ->
  exists w',
    execute d query w = (Raise (DriverError (length (trace w) + 2)), w') /\
    connection_holders (session w') = connection_holders (session w) + 1 /\
    events_since (length (trace w)) w'
    = [QueryCompile query; CallAcquire; ConnCursor c].
Proof.
  intros Hc Hcompile Hcursor.
  unfold execute, _compile, acquire_connection, bind, ext, note,
    modify_session, get_session, ret.
  rewrite Hcompile. destruct (query_compile d query) as [[sql args] cols].
  simpl. rewrite Hc. simpl. rewrite !length_app. simpl.
  replace (length (trace w) + 1 + 1)%nat with (length (trace w) + 2)%nat by lia.
  rewrite Hcursor. eexists. split; [reflexivity|]. split; [reflexivity|].
  unfold events_since. simpl. rewrite <- !app_assoc. now rewrite drop_app_length.
Qed.

End Raising.

(** ** The code on concrete runs *)

(** C1.  A root transaction is started on a new session and the driver's
    [commit()] (or [rollback()]) raises: the error propagates and
    [release_connection] is never entered, so the session still counts one
    holder and keeps the connection.  The same happens to a nested
    transaction whose [RELEASE SAVEPOINT] raises: the cursor is closed, the
    lease is kept. *)
Theorem commit_error_keeps_lease :
  let d := driver_failing_at [3%nat] in
  let w1 := snd (start d 0%nat one_transaction) in
  let d' := driver_failing_at [8%nat] in
  let w2 := snd (start d' 1%nat (snd (start d' 0%nat two_transactions))) in
  (fst (commit d 0%nat w1) = Raise (DriverError 3) /\
   session (snd (commit d 0%nat w1)) = session w1 /\
   count is_CallRelease (trace (snd (commit d 0%nat w1))) = 0%nat /\
   count is_PoolRelease (trace (snd (commit d 0%nat w1))) = 0%nat) /\
  (fst (rollback d 0%nat w1) = Raise (DriverError 3) /\
   session (snd (rollback d 0%nat w1)) = session w1 /\
   count is_CallRelease (trace (snd (rollback d 0%nat w1))) = 0%nat /\
   count is_PoolRelease (trace (snd (rollback d 0%nat w1))) = 0%nat) /\
  (connection_holders (session w1) = 1 /\ conn (session w1) = Some 7%nat /\
   count is_PoolAcquire (trace w1) = 1%nat) /\
  (fst (commit d' 1%nat w2) = Raise (DriverError 8) /\
   connection_holders (session (snd (commit d' 1%nat w2))) = 2 /\
   connection_holders (session w2) = 2 /\
   count is_CursorClose (events_since (length (trace w2)) (snd (commit d' 1%nat w2)))
   = 1%nat /\
   count is_CallRelease (trace (snd (commit d' 1%nat w2))) = 0%nat).
Proof. vm_compute. repeat split. Qed.

(** C5.  [execute], [fetchall] and [fetchone] take the lease and create the
    cursor before entering [try]: when the cursor creation raises, nothing
    is released and the session still counts one holder.  When the close of
    the cursor raises inside [finally], the release that follows it is
    skipped as well.  When it is the statement that raises, the cursor is
    closed, the lease released, and the error re-raised. *)
Theorem cursor_error_keeps_lease :
  let d := driver_failing_at [3%nat] in
  (fst (execute d users_query fresh_session) = Raise (DriverError 3) /\
   fst (fetchall d users_query fresh_session) = Raise (DriverError 3) /\
   fst (fetchone d users_query fresh_session) = Raise (DriverError 3)) /\
  (connection_holders (session (snd (execute d users_query fresh_session))) = 1 /\
   connection_holders (session (snd (fetchall d users_query fresh_session))) = 1 /\
   connection_holders (session (snd (fetchone d users_query fresh_session))) = 1) /\
  trace (snd (execute d users_query fresh_session))
  = [QueryCompile users_query; CallAcquire; PoolAcquire; ConnCursor 7%nat] /\
  (let w := snd (execute d users_query fresh_session) in
   conn (session w) = Some 7%nat /\ count is_PoolRelease (trace w) = 0%nat) /\
  (let w := snd (execute (driver_failing_at [5%nat]) users_query fresh_session) in
   connection_holders (session w) = 1 /\ count is_CallRelease (trace w) = 0%nat) /\
  (let r := execute (driver_failing_at [4%nat]) users_query fresh_session in
   fst r = Raise (DriverError 4) /\
   connection_holders (session (snd r)) = 0 /\ conn (session (snd r)) = None /\
   count is_CursorClose (trace (snd r)) = 1%nat /\
   count is_CallRelease (trace (snd r)) = 1%nat).
Proof. vm_compute. repeat split. Qed.

(** C2, counterexample.  [release_connection] on a new session, which holds
    no lease, returns normally and leaves the counter at -1. *)
Lemma release_without_acquire :
  fst (release_connection ok_driver fresh_session) = Ok tt /\
  connection_holders (session (snd (release_connection ok_driver fresh_session)))
  = -1.
Proof. vm_compute. split; reflexivity. Qed.

(** C4, counterexample.  After a release on a new session the invariant
    holds (no connection, -1 holders); the acquire that follows stores a
    connection and brings the counter to 0, which breaks it. *)
Lemma acquire_breaks_invariant :
  let w1 := snd (release_connection ok_driver fresh_session) in
  let w2 := snd (acquire_connection ok_driver w1) in
  lease_invariant (session w1) /\
  connection_holders (session w2) = 0 /\ conn (session w2) = Some 7%nat /\
  ~ lease_invariant (session w2).
Proof.
  unfold lease_invariant. vm_compute. repeat split; try congruence; try lia.
  intros [H _]. discriminate H. discriminate.
Qed.


(** C3, counterexample.  Transaction 0 is started as root and committed,
    transaction 1 is started and becomes the new root, then [rollback] is
    called on transaction 0 again: it clears the flag that transaction 1
    had set, and transaction 2, started next, becomes a second open root. *)
Lemma two_open_roots :
  let r := run_calls ok_driver (take 6 double_termination) (initial false) in
  let r' := run_calls ok_driver double_termination (initial false) in
  let r'' := step ok_driver r' (Start 2%nat) in
  (root_flag r = true /\ flag_setter r = Some 1%nat /\ root_flag r' = false) /\
  (open_root r'' 1%nat = true /\ open_root r'' 2%nat = true).
Proof. vm_compute. repeat split. Qed.

(** ** Instances of the general statements *)

Lemma executemany_spec_witness :
  exists w',
    executemany ok_driver users_query [[PyInt 1]; [PyInt 2]; [PyInt 3]] fresh_session
    = (Ok tt, w') /\
    count is_CursorExecute (events_since 0 w') = 3%nat /\
    count is_CallRelease (events_since 0 w') = 1%nat.
Proof.
  destruct (executemany_spec ok_driver (fun _ => eq_refl) users_query
              [[PyInt 1]; [PyInt 2]; [PyInt 3]] fresh_session)
    as (w' & c & cursor & Hrun & (_ & _ & Hexec & _ & _ & _ & Hrel) & _).
  exists w'. auto.
Defined.

Lemma start_spec_witness :
  (exists w' c,
     start ok_driver 0%nat one_transaction = (Ok tt, w') /\
     events_since 0 w' = [CallAcquire; PoolAcquire; ConnBegin c]) /\
  (exists w' c cursor,
     start ok_driver 1%nat root_started = (Ok tt, w') /\
     events_since 3 w'
     = [CallAcquire; ConnCursor c;
        CursorExecute cursor
          "SAVEPOINT STARLETTE_SAVEPOINT_00000000_0000_0000_0000_000000000004"
          None;
        CursorClose cursor] /\
     bare_identifier
       "STARLETTE_SAVEPOINT_00000000_0000_0000_0000_000000000004" = true) /\
  (exists w1 w2 tx1 tx2 name1 name2,
     start ok_driver 1%nat root_started = (Ok tt, w1) /\
     start ok_driver 2%nat nested_started = (Ok tt, w2) /\
     heap w1 !! 1%nat = Some tx1 /\ savepoint_name tx1 = Some name1 /\
     heap w2 !! 2%nat = Some tx2 /\ savepoint_name tx2 = Some name2 /\
     name1 <> name2).
Proof.
  split; [|split].
  - destruct (start_spec ok_driver (fun _ => eq_refl) 0%nat Transaction_init
                one_transaction eq_refl eq_refl)
      as [(w' & c & Hrun & _ & _ & _ & Hevs & _) _].
    exists w', c. split; [exact Hrun | exact Hevs].
  - destruct (start_spec ok_driver (fun _ => eq_refl) 1%nat Transaction_init
                root_started eq_refl eq_refl)
      as [(w' & c & Hrun & _ & _ & _ & cursor & Hevs & _ & _ & Hbare & _) _].
    exists w', c, cursor.
    split; [exact Hrun|]. split; [exact Hevs | exact Hbare].
  - destruct (start_spec ok_driver (fun _ => eq_refl) 1%nat Transaction_init
                root_started eq_refl eq_refl)
      as (_ & _ & Hnames).
    destruct (Hnames eq_refl 2%nat Transaction_init nested_started
                eq_refl eq_refl eq_refl)
      as (w1 & w2 & tx1 & tx2 & name1 & name2
          & H1 & H2 & Hh1 & Hn1 & Hh2 & Hn2 & _ & _ & Hdiff).
    exists w1, w2, tx1, tx2, name1, name2.
    repeat (split; [assumption|]).
    apply Hdiff. vm_compute. discriminate.
Defined.

Lemma release_connection_unguarded_witness :
  (exists w',
     release_connection ok_driver fresh_session = (Ok tt, w') /\
     connection_holders (session w') = -1) /\
  0 <= connection_holders
         (session (run_lease ok_driver (take 2 [Acquire; Acquire; Release; Release])
                     fresh_session)).
Proof.
  destruct (release_connection_unguarded ok_driver) as [Hrelease Hpaired].
  split.
  - destruct (Hrelease fresh_session eq_refl) as (w' & H1 & H2 & _). eauto.
  - apply (Hpaired [Acquire; Acquire; Release; Release] 2%nat false eq_refl).
Defined.

Lemma lease_invariant_preserved_witness :
  let w' := run_lease ok_driver [Acquire; Acquire; Release; Release] fresh_session in
  connection_holders (session w') = 0 /\ conn (session w') = None.
Proof.
  destruct (lease_invariant_preserved ok_driver (fun _ => eq_refl)) as (_ & _ & Hbal).
  apply (Hbal [Acquire; Acquire; Release; Release] false eq_refl).
Defined.


Lemma root_bookkeeping_witness :
  let r := run_calls ok_driver [New; New; Start 0; Start 1; Commit 1]%nat (initial false) in
  exists t,
    (Rollback 0%nat = Commit t \/ Rollback 0%nat = Rollback t) /\
    flag_setter r = Some t.
Proof.
  destruct (root_bookkeeping ok_driver false [New; New; Start 0; Start 1; Commit 1]%nat
              (Rollback 0%nat) eq_refl) as (_ & _ & _ & Hclear & _).
  apply Hclear; reflexivity.
Defined.

(** * Further properties *)

(** ** Record: duplicate names and short rows *)

Section RecordMore.

Context {Raw Value : Type}.
Implicit Types (cols : list (@Column Raw Value)) (key : string).

Lemma column_map_last cols1 c cols2 :
  (forall c', In c' cols2 -> name c' <> name c) ->
  column_map (cols1 ++ c :: cols2) !! name c = Some (length cols1, c).
Proof.
  intros Hlater.
  destruct (column_map (cols1 ++ c :: cols2) !! name c) as [[idx col]|] eqn:Hmap.
  - destruct (column_map_Some _ _ _ _ Hmap) as (Hidx & Hname & Hlast).
    destruct (lt_eq_lt_dec idx (length cols1)) as [[Hlt|Heq]|Hgt].
    + exfalso. apply (Hlast (length cols1) c Hlt); [|reflexivity].
      rewrite lookup_app_r by lia. now rewrite Nat.sub_diag.
    + subst idx. rewrite lookup_app_r in Hidx by lia.
      rewrite Nat.sub_diag in Hidx. simpl in Hidx. congruence.
    + exfalso. rewrite lookup_app_r in Hidx by lia.
      destruct (idx - length cols1)%nat as [|j] eqn:Hj; [lia|].
      simpl in Hidx. apply (Hlater col); [|assumption].
      apply list_elem_of_In. eapply list_elem_of_lookup_2; eauto.
  - exfalso. apply column_map_None in Hmap. apply Hmap.
    rewrite map_app, in_app_iff. right. simpl. auto.
Qed.

(** X1.  When several columns have the same name, the lookup answers for the
    last of them: it reads the cell at that column's position, and raises
    [IndexError] when the row has no cell there. *)
Theorem getitem_last_duplicate (cells : list Raw) cols1 c cols2 :
  (forall c', In c' cols2 -> name c' <> name c) ->
  __getitem__ (Record_init (Some cells) (cols1 ++ c :: cols2)) (name c)
  = match cells !! length cols1 with
    | None => Raise IndexError
    | Some raw =>
      match python_type c raw with
      | Some v => Ok v
      | None => Raise ConversionError
      end
    end.
Proof.
  intros Hlater. unfold __getitem__, Record_init. simpl.
  now rewrite column_map_last.
Qed.

End RecordMore.

Lemma getitem_last_duplicate_witness :
  __getitem__
    (Record_init (Some [PyInt 1; PyInt 2; PyStr "x"])
       ([ {| name := "id"; python_type := checked_int |} ]
        ++ {| name := "id"; python_type := checked_int |}
        :: [ {| name := "name"; python_type := checked_str |} ])) "id"
  = Ok (PyInt 2).
Proof.
  apply (getitem_last_duplicate [PyInt 1; PyInt 2; PyStr "x"]
           [ {| name := "id"; python_type := checked_int |} ]
           {| name := "id"; python_type := checked_int |}
           [ {| name := "name"; python_type := checked_str |} ]).
  simpl. intros c' [<-|[]]. discriminate.
Defined.

(** ** Transactions when no collaborator raises: the worlds they lead to *)

Section TransactionWorlds.

Context {Query Args Item Raw Value : Type}.
Variable d : @Driver Query Args Item Raw Value.
Hypothesis never_fails : forall k, fails d k = false.

Abbreviation World := (@World Query Args Item).

Lemma start_root_world t tx (w : World) :
  heap w !! t = Some tx -> is_root tx = false ->
  has_root_transaction (session w) = false ->
  let w0 := set_heap (<[t := set_is_root true tx]> (heap w))
              (set_session (set_has_root_transaction true (session w)) w) in
  let c := acquired_conn d w0 in
  start d t w
  = (Ok tt,
     extend [ConnBegin c]
       (set_heap (<[t := set_tx_conn c (set_is_root true tx)]> (heap w0))
          (after_acquire d w0))).
Proof.
  intros Ht Hroot Hflag w0 c.
  pose proof (lookup_lt_Some _ _ _ Ht) as Hlt.
  unfold start, try_finally, bind, get_session, modify_session, modify_tx,
    get_tx, ret, ext_.
  rewrite Hflag. simpl. rewrite Ht. simpl.
  rewrite acquire_connection_ok by assumption.
  repeat (simpl; rewrite list_lookup_insert_eq
                   by (rewrite ?length_insert; assumption)).
  simpl. rewrite ext_ok by assumption. reflexivity.
Qed.

Lemma start_nested_world t tx (w : World) :
  heap w !! t = Some tx -> is_root tx = false ->
  has_root_transaction (session w) = true ->
  let c := acquired_conn d w in
  let k := length (trace (after_acquire d w)) in
  let sp := make_savepoint_name (uuid4 d k) in
  let cursor := conn_cursor_result d k in
  start d t w
  = (Ok tt,
     extend [ConnCursor c;
             CursorExecute cursor ("SAVEPOINT " ++ sp)%string None;
             CursorClose cursor]
       (set_heap
          (<[t := set_savepoint_name sp (set_tx_conn c tx)]>
             (<[t := set_tx_conn c tx]> (heap w)))
          (after_acquire d w))).
Proof.
  intros Ht Hroot Hflag c k sp cursor.
  pose proof (lookup_lt_Some _ _ _ Ht) as Hlt.
  unfold start, try_finally, bind, get_session, modify_session, modify_tx,
    get_tx, ret, ext_.
  rewrite Hflag. rewrite acquire_connection_ok, heap_after_acquire, Ht by assumption.
  repeat (simpl; rewrite list_lookup_insert_eq
                   by (rewrite ?length_insert; assumption)).
  simpl. rewrite Hroot. simpl.
  repeat (simpl; rewrite list_lookup_insert_eq
                   by (rewrite ?length_insert; assumption)).
  simpl. rewrite ext_ok by assumption.
  repeat (simpl; rewrite list_lookup_insert_eq
                   by (rewrite ?length_insert; assumption)).
  simpl. rewrite !ext_ok by assumption. simpl.
  unfold extend. simpl. rewrite <- !app_assoc. reflexivity.
Qed.

Lemma commit_root_world t tx c (w : World) :
  heap w !! t = Some tx -> is_root tx = true -> tx_conn tx = Some c ->
  commit d t w
  = (Ok tt,
     after_release
       (set_session (set_has_root_transaction false (session w))
          (extend [ConnCommit c] w))).
Proof.
  intros Ht Hroot Hc. unfold commit.
  rewrite (bind_get_tx _ _ _ _ Ht), Hroot, Hc.
  unfold bind, attr, ret, ext_, modify_session.
  now rewrite ext_ok, release_connection_ok by assumption.
Qed.

Lemma rollback_root_world t tx c (w : World) :
  heap w !! t = Some tx -> is_root tx = true -> tx_conn tx = Some c ->
  rollback d t w
  = (Ok tt,
     after_release
       (set_session (set_has_root_transaction false (session w))
          (extend [ConnRollback c] w))).
Proof.
  intros Ht Hroot Hc. unfold rollback.
  rewrite (bind_get_tx _ _ _ _ Ht), Hroot, Hc.
  unfold bind, attr, ret, ext_, modify_session.
  now rewrite ext_ok, release_connection_ok by assumption.
Qed.

Lemma commit_nested_world t tx c sp (w : World) :
  heap w !! t = Some tx -> is_root tx = false -> tx_conn tx = Some c ->
  savepoint_name tx = Some sp ->
  let cursor := conn_cursor_result d (length (trace w)) in
  commit d t w
  = (Ok tt,
     after_release
       (extend [ConnCursor c;
                CursorExecute cursor ("RELEASE SAVEPOINT " ++ sp)%string None;
                CursorClose cursor] w)).
Proof.
  intros Ht Hroot Hc Hsp cursor. unfold commit.
  rewrite (bind_get_tx _ _ _ _ Ht), Hroot, Hc, Hsp.
  unfold try_finally, bind, attr, ret, ext_.
  rewrite !ext_ok, release_connection_ok by assumption.
  now rewrite !extend_extend.
Qed.

Lemma rollback_nested_world t tx c sp (w : World) :
  heap w !! t = Some tx -> is_root tx = false -> tx_conn tx = Some c ->
  savepoint_name tx = Some sp ->
  let cursor := conn_cursor_result d (length (trace w)) in
  rollback d t w
  = (Ok tt,
     after_release
       (extend [ConnCursor c;
                CursorExecute cursor ("ROLLBACK TO SAVEPOINT " ++ sp)%string None;
                CursorClose cursor] w)).
Proof.
  intros Ht Hroot Hc Hsp cursor. unfold rollback.
  rewrite (bind_get_tx _ _ _ _ Ht), Hroot, Hc, Hsp.
  unfold try_finally, bind, attr, ret, ext_.
  rewrite !ext_ok, release_connection_ok by assumption.
  now rewrite !extend_extend.
Qed.

End TransactionWorlds.

(** ** Round trips of a transaction *)

Section RoundTrips.

Context {Query Args Item Raw Value : Type}.
Variable d : @Driver Query Args Item Raw Value.
Hypothesis never_fails : forall k, fails d k = false.

Abbreviation World := (@World Query Args Item).

Lemma session_eta (s : MySQLSession) c h f :
  conn s = c -> connection_holders s = h -> has_root_transaction s = f ->
  {| conn := c; connection_holders := h; has_root_transaction := f;
     _rollback_transaction := _rollback_transaction s |} = s.
Proof. destruct s. simpl. now intros -> -> ->. Qed.

(** X2.  A transaction started inside an open root transaction, then committed
    or rolled back, when no collaborator raises: [start] creates a
    savepoint, [commit] releases and [rollback] rolls back to the savepoint
    of that very name, all through cursors of the connection the session
    already holds; the pool is not called, neither are [begin()],
    [commit()] or [rollback()] of the connection, and the session ends as
    it was. *)
Theorem nested_round_trip t tx c (w : World) :
  heap w !! t = Some tx -> is_root tx = false ->
  has_root_transaction (session w) = true ->
  conn (session w) = Some c -> 0 < connection_holders (session w) ->
  exists w1 sp cursor1,
    start d t w = (Ok tt, w1) /\
    (exists w2 cursor2,
       commit d t w1 = (Ok tt, w2) /\ session w2 = session w /\
       events_since (length (trace w)) w2
       = [CallAcquire; ConnCursor c;
          CursorExecute cursor1 ("SAVEPOINT " ++ sp)%string None;
          CursorClose cursor1; ConnCursor c;
          CursorExecute cursor2 ("RELEASE SAVEPOINT " ++ sp)%string None;
          CursorClose cursor2; CallRelease]) /\
    (exists w2 cursor2,
       rollback d t w1 = (Ok tt, w2) /\ session w2 = session w /\
       events_since (length (trace w)) w2
       = [CallAcquire; ConnCursor c;
          CursorExecute cursor1 ("SAVEPOINT " ++ sp)%string None;
          CursorClose cursor1; ConnCursor c;
          CursorExecute cursor2 ("ROLLBACK TO SAVEPOINT " ++ sp)%string None;
          CursorClose cursor2; CallRelease]).
Proof.
  intros Ht Hroot Hflag Hc Hpos.
  pose proof (lookup_lt_Some _ _ _ Ht) as Hlt.
  rewrite (start_nested_world d never_fails t tx w Ht Hroot Hflag).
  assert (Hacq : acquired_conn d w = c) by (unfold acquired_conn; now rewrite Hc).
  rewrite Hacq.
  set (sp := make_savepoint_name _). set (cursor1 := conn_cursor_result d _).
  set (w1 := extend _ _).
  assert (Ht1 : heap w1 !! t = Some (set_savepoint_name sp (set_tx_conn c tx))).
  { subst w1. simpl.
    now rewrite list_lookup_insert_eq by (rewrite ?length_insert; assumption). }
  assert (Hsession : forall evs,
    session (after_release (extend evs w1)) = session w /\
    events_since (length (trace w)) (after_release (extend evs w1))
    = [CallAcquire; ConnCursor c;
       CursorExecute cursor1 ("SAVEPOINT " ++ sp)%string None;
       CursorClose cursor1] ++ evs ++ [CallRelease]).
  { intros evs. unfold after_release, after_acquire, release_events,
      events_since. subst w1. simpl. unfold acquire_events. rewrite Hacq, Hc.
    replace (connection_holders (session w) + 1 - 1)
      with (connection_holders (session w)) by lia.
    destruct (connection_holders (session w) =? 0)%Z eqn:Hz;
      [apply Z.eqb_eq in Hz; lia|].
    split.
    - unfold set_connection_holders, set_conn. simpl. now apply session_eta.
    - simpl. rewrite <- !app_assoc. now rewrite drop_app_length. }
  exists w1, sp, cursor1. split; [reflexivity|]. split.
  - rewrite (commit_nested_world d never_fails t _ c sp w1 Ht1) by (simpl; auto).
    destruct (Hsession [ConnCursor c;
      CursorExecute (conn_cursor_result d (length (trace w1)))
        ("RELEASE SAVEPOINT " ++ sp)%string None;
      CursorClose (conn_cursor_result d (length (trace w1)))]) as [Hs He].
    eexists _, _. split; [reflexivity|]. split; [exact Hs | exact He].
  - rewrite (rollback_nested_world d never_fails t _ c sp w1 Ht1) by (simpl; auto).
    destruct (Hsession [ConnCursor c;
      CursorExecute (conn_cursor_result d (length (trace w1)))
        ("ROLLBACK TO SAVEPOINT " ++ sp)%string None;
      CursorClose (conn_cursor_result d (length (trace w1)))]) as [Hs He].
    eexists _, _. split; [reflexivity|]. split; [exact Hs | exact He].
Qed.

(** X3.  The first transaction on an idle session (no holder, no connection, no
    root), started and then committed or rolled back, when no collaborator
    raises: one connection is taken from the pool, [begin()] and then
    [commit()] (or [rollback()]) are called on it, it is given back to the
    pool, and the session ends idle as it was. *)
Theorem root_round_trip t tx (w : World) :
  heap w !! t = Some tx -> is_root tx = false ->
  has_root_transaction (session w) = false ->
  conn (session w) = None -> connection_holders (session w) = 0 ->
  exists w1 c,
    start d t w = (Ok tt, w1) /\
    has_root_transaction (session w1) = true /\
    (exists w2,
       commit d t w1 = (Ok tt, w2) /\ session w2 = session w /\
       events_since (length (trace w)) w2
       = [CallAcquire; PoolAcquire; ConnBegin c; ConnCommit c;
          CallRelease; PoolRelease (Some c)]) /\
    (exists w2,
       rollback d t w1 = (Ok tt, w2) /\ session w2 = session w /\
       events_since (length (trace w)) w2
       = [CallAcquire; PoolAcquire; ConnBegin c; ConnRollback c;
          CallRelease; PoolRelease (Some c)]).
Proof.
  intros Ht Hroot Hflag Hc Hh.
  pose proof (lookup_lt_Some _ _ _ Ht) as Hlt.
  rewrite (start_root_world d never_fails t tx w Ht Hroot Hflag).
  cbv zeta.
  set (w0 := set_heap _ (set_session _ w)).
  assert (Hacq : acquired_conn d w0 = pool_acquire_result d (S (length (trace w)))).
  { unfold acquired_conn, w0. simpl. now rewrite Hc. }
  rewrite Hacq. set (c := pool_acquire_result d _).
  set (w1 := extend _ _).
  assert (Ht1 : heap w1 !! t = Some (set_tx_conn c (set_is_root true tx))).
  { subst w1 w0. simpl.
    now rewrite list_lookup_insert_eq by (rewrite ?length_insert; assumption). }
  assert (Hsession : forall e,
    let w2 := after_release
                (set_session (set_has_root_transaction false (session w1))
                   (extend [e] w1)) in
    session w2 = session w /\
    events_since (length (trace w)) w2
    = [CallAcquire; PoolAcquire; ConnBegin c; e; CallRelease; PoolRelease (Some c)]).
  { intros e. unfold after_release, after_acquire, release_events,
      events_since. subst w1 w0. simpl. unfold acquire_events. simpl.
    rewrite Hc, Hh, Hacq. simpl. split.
    - unfold set_connection_holders, set_conn. simpl. now apply session_eta.
    - rewrite <- !app_assoc. now rewrite drop_app_length. }
  exists w1, c. split; [reflexivity|]. split; [reflexivity|]. split.
  - rewrite (commit_root_world d never_fails t _ c w1 Ht1) by reflexivity.
    eexists. split; [reflexivity|]. apply Hsession.
  - rewrite (rollback_root_world d never_fails t _ c w1 Ht1) by reflexivity.
    eexists. split; [reflexivity|]. apply Hsession.
Qed.

End RoundTrips.

(** ** Rollback isolation *)

Section Isolation.

Context {Query Args Item Raw Value : Type}.
Variable d : @Driver Query Args Item Raw Value.

Abbreviation World := (@World Query Args Item).

(** A session built without rollback isolation: entering and leaving it
    does nothing at all, whatever the driver does. *)
Lemma plain_session_enter_exit (w : World) :
  _rollback_transaction (session w) = None ->
  __aenter__ d w = (Ok tt, w) /\ __aexit__ d w = (Ok tt, w).
Proof.
  intros H. unfold __aenter__, __aexit__, bind, get_session, ret.
  now rewrite H.
Qed.

Hypothesis never_fails : forall k, fails d k = false.

(** X4.  A session built with rollback isolation, when no collaborator raises:
    entering it takes a connection from the pool and begins a root
    transaction; leaving it rolls that transaction back, gives the
    connection back and leaves the session as it was built.  A transaction
    created and started in between is not a root: it makes a savepoint on
    the same connection and calls neither the pool nor [begin()]. *)
Theorem rollback_isolation_round_trip :
  let w0 : World := Session_init true in
  exists w1 c,
    __aenter__ d w0 = (Ok tt, w1) /\
    has_root_transaction (session w1) = true /\
    conn (session w1) = Some c /\
    trace w1 = [CallAcquire; PoolAcquire; ConnBegin c] /\
    (exists w2,
       __aexit__ d w1 = (Ok tt, w2) /\ session w2 = session w0 /\
       trace w2 = [CallAcquire; PoolAcquire; ConnBegin c; ConnRollback c;
                   CallRelease; PoolRelease (Some c)]) /\
    (exists t w3 sp cursor,
       fst (transaction w1) = Ok t /\
       start d t (snd (transaction w1)) = (Ok tt, w3) /\
       events_since (length (trace w1)) w3
       = [CallAcquire; ConnCursor c;
          CursorExecute cursor ("SAVEPOINT " ++ sp)%string None;
          CursorClose cursor] /\
       heap w3 !! t = Some {| is_root := false; tx_conn := Some c;
                              savepoint_name := Some sp |}).
Proof.
  intros w0.
  assert (Henter : __aenter__ d w0 = start d 0%nat w0) by reflexivity.
  rewrite Henter.
  rewrite (start_root_world d never_fails 0%nat Transaction_init w0)
    by reflexivity.
  cbv zeta.
  set (c := acquired_conn d _). set (w1 := extend [ConnBegin c] _).
  exists w1, c. split; [reflexivity|]. split; [reflexivity|].
  split; [reflexivity|]. split; [reflexivity|]. split.
  - assert (Hexit : __aexit__ d w1 = rollback d 0%nat w1) by reflexivity.
    rewrite Hexit.
    rewrite (rollback_root_world d never_fails 0%nat
               (set_tx_conn c (set_is_root true Transaction_init)) c w1)
      by reflexivity.
    eexists. split; [reflexivity|]. split; reflexivity.
  - exists 1%nat.
    rewrite (start_nested_world d never_fails 1%nat Transaction_init
               (snd (transaction w1))) by reflexivity.
    eexists _, _, _. split; [reflexivity|]. split; [reflexivity|].
    split; reflexivity.
Qed.

End Isolation.

Lemma rollback_isolation_round_trip_witness :
  exists w1 w2,
    __aenter__ ok_driver (Session_init true) = (Ok tt, w1) /\
    __aexit__ ok_driver w1 = (Ok tt, w2) /\
    session w2 = {| conn := None; connection_holders := 0;
                    has_root_transaction := false;
                    _rollback_transaction := Some 0%nat |}.
Proof.
  destruct (rollback_isolation_round_trip ok_driver (fun _ => eq_refl))
    as (w1 & c & Henter & _ & _ & _ & (w2 & Hexit & Hsession & _) & _).
  exists w1, w2. split; [exact Henter|]. split; [exact Hexit | exact Hsession].
Defined.

Lemma nested_round_trip_witness :
  let w := snd (transaction (snd (start ok_driver 0%nat one_transaction))) in
  exists w1 w2,
    start ok_driver 1%nat w = (Ok tt, w1) /\
    rollback ok_driver 1%nat w1 = (Ok tt, w2) /\ session w2 = session w.
Proof.
  intros w.
  destruct (nested_round_trip ok_driver (fun _ => eq_refl) 1%nat Transaction_init
              7%nat w eq_refl eq_refl eq_refl eq_refl eq_refl)
    as (w1 & sp & cursor1 & Hstart & _ & (w2 & cursor2 & Hrollback & Hsession & _)).
  exists w1, w2. auto.
Defined.

Lemma root_round_trip_witness :
  exists w1 w2,
    start ok_driver 0%nat one_transaction = (Ok tt, w1) /\
    commit ok_driver 0%nat w1 = (Ok tt, w2) /\
    session w2 = session one_transaction.
Proof.
  destruct (root_round_trip ok_driver (fun _ => eq_refl) 0%nat Transaction_init
              one_transaction eq_refl eq_refl eq_refl eq_refl eq_refl)
    as (w1 & c & Hstart & _ & (w2 & Hcommit & Hsession & _) & _).
  exists w1, w2. auto.
Defined.

(** ** The query methods and the lease, whatever the driver does *)

Section QueryLease.

Context {Query Args Item Raw Value : Type}.
Variable d : @Driver Query Args Item Raw Value.

Abbreviation World := (@World Query Args Item).
Abbreviation M := (@M Query Args Item).

Lemma session_log (e : @Event Query Args Item) (w : World) :
  session (log_event e w) = session w.
Proof. reflexivity. Qed.

Lemma executemany_loop_session cursor (query : Query) (values : list Item) :
  preserves session (executemany_loop d cursor query values).
Proof.
  induction values as [|item values IH]; simpl.
  - apply preserves_ret.
  - apply preserves_bind; [apply preserves_ext, session_log | intros q1].
    apply preserves_bind; [apply preserves_ext, session_log | intros [[sql args] cols]].
    apply preserves_bind; [apply preserves_ext, session_log | intros _].
    exact IH.
Qed.

(** Lease, cursor, guarded body, cursor close and release: the shape all
    four query methods share. *)
Lemma scoped_lease_settled {A} (body : Cursor -> M A) (w w0 : World) :
  (forall cursor, preserves session (body cursor)) ->
  session w0 = session w ->
  lease_settled (connection_holders (session w))
    (bind (acquire_connection d) (fun c =>
       bind (ext d (ConnCursor c) (conn_cursor_result d)) (fun cursor =>
         try_finally (body cursor)
           (bind (ext_ d (CursorClose cursor)) (fun _ => release_connection d))))
       w0).
Proof.
  intros Hbody Hw0. unfold lease_settled, try_finally, bind, ext_, ext.
  pose proof (holders_after_acquire d w0) as Ha. rewrite Hw0 in Ha.
  destruct (acquire_connection d w0) as [[c|e] w1]; simpl in *; [|auto].
  destruct (fails d (length (trace w1))); simpl; [auto|].
  pose proof (Hbody (conn_cursor_result d (length (trace w1)))
                (log_event (ConnCursor c) w1)) as Hb.
  destruct (body _ _) as [r w3]. simpl in Hb.
  destruct (fails d (length (trace w3))); simpl.
  - rewrite Hb. auto.
  - pose proof (holders_after_release d (log_event (CursorClose
        (conn_cursor_result d (length (trace w1)))) w3)) as Hr.
    simpl in Hr. rewrite Hb in Hr. simpl in Hr.
    destruct (release_connection d _) as [[u|e] w5]; simpl in *.
    + destruct r; simpl; [lia | left; lia].
    + left. lia.
Qed.

(** X5.  Whatever the driver does, [execute], [fetchall], [fetchone] and
    [executemany] never release more than they took: when they return, the
    number of holders is what it was; when they raise, it is what it was or
    one higher. *)
Theorem query_lease_settled (w : World) :
  let h := connection_holders (session w) in
  (forall query, lease_settled h (execute d query w)) /\
  (forall query, lease_settled h (fetchall d query w)) /\
  (forall query, lease_settled h (fetchone d query w)) /\
  (forall query values, lease_settled h (executemany d query values w)).
Proof.
  intros h.
  assert (Hcompiled : forall A (query : Query)
            (k : string * Args * list (@Column Raw Value) -> M A),
    (forall compiled w0, session w0 = session w -> lease_settled h (k compiled w0)) ->
    lease_settled h (bind (_compile d query) k w)).
  { intros A query k Hk. unfold bind, _compile, ext.
    destruct (fails d (length (trace w))).
    - unfold lease_settled. simpl. auto.
    - apply Hk. reflexivity. }
  split; [|split; [|split]].
  - intros query. unfold execute. apply Hcompiled.
    intros [[sql args] cols] w0 Hw0.
    apply scoped_lease_settled; [|assumption].
    intros cursor. apply preserves_ext, session_log.
  - intros query. unfold fetchall. apply Hcompiled.
    intros [[sql args] cols] w0 Hw0.
    apply scoped_lease_settled; [|assumption].
    intros cursor.
    apply preserves_bind; [apply preserves_ext, session_log | intros _].
    apply preserves_bind; [apply preserves_ext, session_log | intros rows].
    apply preserves_ret.
  - intros query. unfold fetchone. apply Hcompiled.
    intros [[sql args] cols] w0 Hw0.
    apply scoped_lease_settled; [|assumption].
    intros cursor.
    apply preserves_bind; [apply preserves_ext, session_log | intros _].
    apply preserves_bind; [apply preserves_ext, session_log | intros row].
    apply preserves_ret.
  - intros query values. unfold executemany.
    apply scoped_lease_settled; [|reflexivity].
    intros cursor. apply executemany_loop_session.
Qed.

End QueryLease.

(** ** The query methods, call by call *)

Section QueryRuns.

Context {Query Args Item Raw Value : Type}.
Variable d : @Driver Query Args Item Raw Value.

Abbreviation World := (@World Query Args Item).

Lemma ext_returns {A} e (r : nat -> A) (w : World) :
  fails d (length (trace w)) = false ->
  ext d e r w = (Ok (r (length (trace w))), extend [e] w).
Proof. intros H. unfold ext. now rewrite H. Qed.

Lemma ext_raises {A} e (r : nat -> A) (w : World) :
  fails d (length (trace w)) = true ->
  ext d e r w = (Raise (DriverError (length (trace w))), extend [e] w).
Proof. intros H. unfold ext. now rewrite H. Qed.

Lemma acquire_connection_returns (w : World) :
  (conn (session w) = None -> fails d (S (length (trace w))) = false) ->
  acquire_connection d w = (Ok (acquired_conn d w), after_acquire d w).
Proof.
  intros Hpool.
  unfold acquire_connection, acquired_conn, after_acquire, acquire_events.
  unfold_monad. simpl. destruct w as [s h tr]. simpl in *.
  destruct (conn s) as [c|] eqn:Hc; simpl.
  - unfold extend, set_session, set_conn, set_connection_holders, acquired_conn.
    simpl. now rewrite Hc.
  - rewrite length_app. simpl.
    replace (length tr + 1)%nat with (S (length tr)) by lia.
    rewrite Hpool by reflexivity.
    unfold extend, set_session, log_event, acquired_conn. simpl.
    rewrite Hc, <- app_assoc. reflexivity.
Qed.

Lemma release_connection_returns (w : World) :
  (connection_holders (session w) - 1 = 0 ->
   fails d (S (length (trace w))) = false) ->
  release_connection d w = (Ok tt, after_release w).
Proof.
  intros Hpool. unfold release_connection, after_release, release_events.
  unfold_monad. simpl. destruct w as [s h tr]. simpl in *.
  destruct (connection_holders s - 1 =? 0)%Z eqn:Hz; simpl.
  - apply Z.eqb_eq in Hz. rewrite length_app. simpl.
    replace (length tr + 1)%nat with (S (length tr)) by lia.
    rewrite (Hpool Hz). unfold extend, set_session, log_event. simpl.
    now rewrite <- app_assoc.
  - reflexivity.
Qed.

Lemma after_release_after_acquire (w : World) (evs : list (@Event Query Args Item)) :
  lease_invariant (session w) -> 0 <= connection_holders (session w) ->
  session (after_release (extend evs (after_acquire d w))) = session w.
Proof.
  unfold lease_invariant. intros [Hc Hh] Hpos.
  unfold after_release, after_acquire, set_conn, set_connection_holders. simpl.
  replace (connection_holders (session w) + 1 - 1)
    with (connection_holders (session w)) by lia.
  destruct (connection_holders (session w) =? 0)%Z eqn:Hz; simpl.
  - apply Z.eqb_eq in Hz. apply session_eta; auto.
    destruct (conn (session w)); [|reflexivity].
    assert (0 < connection_holders (session w)) by (apply Hc; discriminate). lia.
  - apply Z.eqb_neq in Hz. apply session_eta; auto.
    unfold acquired_conn. destruct (conn (session w)) eqn:Hconn; [reflexivity|].
    assert (Some (pool_acquire_result d (S (length (trace w)))) <> None)
      by discriminate.
    exfalso. assert (0 < connection_holders (session w)) by lia.
    apply Hh in H0. contradiction.
Qed.

Lemma session_after_release_after_acquire (w : World)
    (evs : list (@Event Query Args Item)) :
  session (after_release (extend evs (after_acquire d w)))
  = set_conn (if (connection_holders (session w) =? 0)%Z
              then None else Some (acquired_conn d w)) (session w).
Proof.
  unfold after_release, after_acquire, set_conn, set_connection_holders. simpl.
  replace (connection_holders (session w) + 1 - 1)
    with (connection_holders (session w)) by lia.
  destruct (connection_holders (session w) =? 0)%Z; reflexivity.
Qed.

Lemma length_trace_extend (evs : list (@Event Query Args Item)) (w : World) :
  length (trace (extend evs w)) = (length (trace w) + length evs)%nat.
Proof. unfold extend. simpl. apply length_app. Qed.

Lemma length_trace_after_acquire (w : World) :
  length (trace (after_acquire d w))
  = (length (trace w)
     + length (acquire_events (session w) : list (@Event Query Args Item)))%nat.
Proof. unfold after_acquire. now rewrite length_trace_extend. Qed.

Lemma length_acquire_events (s : MySQLSession) :
  length (acquire_events s : list (@Event Query Args Item))
  = match conn s with None => 2%nat | Some _ => 1%nat end.
Proof. unfold acquire_events. now destruct (conn s). Qed.

(** X6.  When the statement is the one call that raises, [execute], [fetchall]
    and [fetchone] close the cursor, release the lease and raise the
    statement's error; no row is fetched.  The number of holders is back to
    what it was, and the session keeps the leased connection exactly when
    that number is not zero; a session that held a connection exactly when
    it had holders, and had no negative number of them, is left as it was
    found. *)
Theorem statement_error_cleanup (query : Query) (w : World) :
  fails_only_at d (statement_position w) ->
  exists w' c cursor,
    let e := DriverError (statement_position w) in
    let compiled := query_compile d query in
    execute d query w = (Raise e, w') /\
    fetchall d query w = (Raise e, w') /\
    fetchone d query w = (Raise e, w') /\
    c = acquired_conn d (extend [QueryCompile query] w) /\
    cursor = conn_cursor_result d (Nat.pred (statement_position w)) /\
    session w'
    = set_conn (if (connection_holders (session w) =? 0)%Z
                then None else Some c) (session w) /\
    (lease_invariant (session w) -> 0 <= connection_holders (session w) ->
     session w' = session w) /\
    heap w' = heap w /\
    events_since (length (trace w)) w'
    = QueryCompile query
      :: acquire_events (session w)
      ++ [ConnCursor c;
          CursorExecute cursor (fst (fst compiled)) (Some (snd (fst compiled)));
          CursorClose cursor]
      ++ release_events (connection_holders (session w)) (Some c).
Proof.
  intros Hf. unfold fails_only_at in Hf.
  set (p := statement_position w) in *.
  assert (Hp : p = (length (trace w) + 2
                    + match conn (session w) with None => 2 | Some _ => 1 end)%nat).
  { reflexivity. }
  set (w1 := extend [QueryCompile query] w).
  set (w2 := after_acquire d w1).
  set (c := acquired_conn d w1).
  set (cursor := conn_cursor_result d (length (trace w2))).
  set (w3 := extend [ConnCursor c] w2).
  destruct (query_compile d query) as [[sql args] cols] eqn:Hq.
  set (w4 := extend [CursorExecute cursor sql (Some args)] w3).
  set (w5 := extend [CursorClose cursor] w4).
  assert (L1 : length (trace w1) = S (length (trace w))).
  { subst w1. rewrite length_trace_extend. simpl. lia. }
  assert (L2 : length (trace w2)
               = (length (trace w) + 1
                  + match conn (session w) with None => 2 | Some _ => 1 end)%nat).
  { subst w2. rewrite length_trace_after_acquire, length_acquire_events, L1.
    subst w1. simpl. lia. }
  assert (L3 : length (trace w3) = p).
  { subst w3. rewrite length_trace_extend, L2, Hp. simpl. lia. }
  assert (L4 : length (trace w4) = S p).
  { subst w4. rewrite length_trace_extend, L3. simpl. lia. }
  assert (L5 : length (trace w5) = S (S p)).
  { subst w5. rewrite length_trace_extend, L4. simpl. lia. }
  assert (E1 : _compile d query w = (Ok (sql, args, cols), w1)).
  { unfold _compile. rewrite ext_returns, Hq; [reflexivity|].
    rewrite Hf. apply Nat.eqb_neq. lia. }
  assert (E2 : acquire_connection d w1 = (Ok c, w2)).
  { apply acquire_connection_returns. intros _.
    rewrite Hf. apply Nat.eqb_neq. rewrite L1, Hp.
    destruct (conn (session w)); lia. }
  assert (E3 : ext d (ConnCursor c) (conn_cursor_result d) w2 = (Ok cursor, w3)).
  { apply ext_returns. rewrite Hf. apply Nat.eqb_neq. rewrite L2, Hp.
    destruct (conn (session w)); lia. }
  assert (E4 : ext_ d (CursorExecute cursor sql (Some args)) w3
               = (Raise (DriverError p), w4)).
  { unfold ext_. rewrite ext_raises; [now rewrite L3|].
    rewrite Hf. apply Nat.eqb_eq. exact L3. }
  assert (E5 : ext_ d (CursorClose cursor) w4 = (Ok tt, w5)).
  { unfold ext_. rewrite ext_returns; [reflexivity|].
    rewrite Hf. apply Nat.eqb_neq. lia. }
  assert (E6 : release_connection d w5 = (Ok tt, after_release w5)).
  { apply release_connection_returns. intros _.
    rewrite Hf. apply Nat.eqb_neq. lia. }
  exists (after_release w5), c, cursor. cbv zeta. cbn [fst snd].
  split; [|split; [|split; [|split; [|split; [|split; [|split; [|split]]]]]]].
  - unfold execute, try_finally, bind. now rewrite E1, E2, E3, E4, E5, E6.
  - unfold fetchall, try_finally, bind. now rewrite E1, E2, E3, E4, E5, E6.
  - unfold fetchone, try_finally, bind. now rewrite E1, E2, E3, E4, E5, E6.
  - reflexivity.
  - subst cursor. f_equal. rewrite L2, Hp. destruct (conn (session w)); simpl; lia.
  - subst w5 w4 w3. rewrite !extend_extend. subst w2.
    change (session w) with (session w1).
    apply session_after_release_after_acquire.
  - intros Hinv Hpos. subst w5 w4 w3. rewrite !extend_extend. subst w2.
    change (session w) with (session w1).
    apply after_release_after_acquire; assumption.
  - reflexivity.
  - unfold events_since, after_release, release_events.
    subst w5 w4 w3 w2 c w1. unfold after_acquire, extend. simpl.
    replace (connection_holders (session w) + 1 - 1)
      with (connection_holders (session w)) by lia.
    rewrite <- !app_assoc. rewrite drop_app_length. simpl.
    rewrite <- ?app_assoc. reflexivity.
Qed.

(** X7.  When no collaborator raises, [fetchall] returns one record per row the
    cursor fetched, in the cursor's order, each wrapping its row with the
    columns of the compiled query; the statement is executed once with the
    compiled text and parameters and the cursor is closed.  The number of
    holders is back to what it was, and the session keeps the leased
    connection exactly when that number is not zero; a session that held a
    connection exactly when it had holders, and had no negative number of
    them, is left as it was found. *)
Theorem fetchall_returns (query : Query) (w : World) :
  (forall k, fails d k = false) ->
  exists w' c cursor rows,
    let compiled := query_compile d query in
    fetchall d query w
    = (Ok (map (fun row => Record_init (Some row) (snd compiled)) rows), w') /\
    rows = cursor_fetchall_result d (S (statement_position w)) /\
    c = acquired_conn d (extend [QueryCompile query] w) /\
    cursor = conn_cursor_result d (Nat.pred (statement_position w)) /\
    session w'
    = set_conn (if (connection_holders (session w) =? 0)%Z
                then None else Some c) (session w) /\
    (lease_invariant (session w) -> 0 <= connection_holders (session w) ->
     session w' = session w) /\
    heap w' = heap w /\
    events_since (length (trace w)) w'
    = QueryCompile query
      :: acquire_events (session w)
      ++ [ConnCursor c;
          CursorExecute cursor (fst (fst compiled)) (Some (snd (fst compiled)));
          CursorFetchall cursor; CursorClose cursor]
      ++ release_events (connection_holders (session w)) (Some c).
Proof.
  intros Hok.
  set (w1 := extend [QueryCompile query] w).
  set (w2 := after_acquire d w1).
  set (c := acquired_conn d w1).
  set (cursor := conn_cursor_result d (length (trace w2))).
  destruct (query_compile d query) as [[sql args] cols] eqn:Hq.
  set (w3 := extend [ConnCursor c] w2).
  set (w4 := extend [CursorExecute cursor sql (Some args)] w3).
  set (w5 := extend [CursorFetchall cursor] w4).
  set (w6 := extend [CursorClose cursor] w5).
  assert (L2 : length (trace w2) = Nat.pred (statement_position w)).
  { subst w2. rewrite length_trace_after_acquire, length_acquire_events.
    subst w1. rewrite length_trace_extend.
    unfold statement_position. simpl. destruct (conn (session w)); lia. }
  assert (L4 : length (trace w4) = S (statement_position w)).
  { subst w4 w3. rewrite !length_trace_extend, L2.
    unfold statement_position. simpl. lia. }
  assert (E1 : _compile d query w = (Ok (sql, args, cols), w1)).
  { unfold _compile. now rewrite (ext_ok d Hok), Hq. }
  assert (E2 : acquire_connection d w1 = (Ok c, w2))
    by apply (acquire_connection_ok d Hok).
  assert (E3 : ext d (ConnCursor c) (conn_cursor_result d) w2 = (Ok cursor, w3))
    by apply (ext_ok d Hok).
  assert (E4 : ext_ d (CursorExecute cursor sql (Some args)) w3 = (Ok tt, w4))
    by apply (ext_ok d Hok).
  assert (E5 : ext d (CursorFetchall cursor) (cursor_fetchall_result d) w4
               = (Ok (cursor_fetchall_result d (S (statement_position w))), w5)).
  { rewrite (ext_ok d Hok). now rewrite L4. }
  assert (E6 : ext_ d (CursorClose cursor) w5 = (Ok tt, w6))
    by apply (ext_ok d Hok).
  assert (E7 : release_connection d w6 = (Ok tt, after_release w6))
    by apply (release_connection_ok d Hok).
  exists (after_release w6), c, cursor,
    (cursor_fetchall_result d (S (statement_position w))).
  cbv zeta. cbn [fst snd].
  split; [|split; [|split; [|split; [|split; [|split; [|split]]]]]].
  - unfold fetchall, try_finally, bind, ret.
    now rewrite E1, E2, E3, E4, E5, E6, E7.
  - reflexivity.
  - reflexivity.
  - subst cursor. now rewrite L2.
  - subst w6 w5 w4 w3. rewrite !extend_extend. subst w2.
    change (session w) with (session w1).
    apply session_after_release_after_acquire.
  - intros Hinv Hpos. subst w6 w5 w4 w3. rewrite !extend_extend. subst w2.
    change (session w) with (session w1).
    apply after_release_after_acquire; assumption.
  - reflexivity.
  - unfold events_since, after_release, release_events.
    subst w6 w5 w4 w3 w2 c w1. unfold after_acquire, extend. simpl.
    replace (connection_holders (session w) + 1 - 1)
      with (connection_holders (session w)) by lia.
    rewrite <- !app_assoc. rewrite drop_app_length. simpl.
    rewrite <- ?app_assoc. reflexivity.
Qed.

(** C10.  When no collaborator raises, [fetchone] compiles the query, takes
    the lease, creates a cursor, executes the statement, calls the cursor's
    [fetchone()], closes the cursor and releases the lease, in that order
    and nothing else; it returns a [Record] that wraps what that call of
    [fetchone()] returned, with the columns of the compiled query; it
    neither raises nor returns [None].  When the cursor found no row, the
    record wraps [None], and the missing row shows only later: every field
    lookup on that record raises ([KeyError] for an unknown name,
    [TypeError] for a known one). *)
Theorem fetchone_no_row (query : Query) (w : World) :
  (forall k, fails d k = false) ->
  exists w' c cursor,
    let compiled := query_compile d query in
    let fetch_position := S (statement_position w) in
    let row := cursor_fetchone_result d fetch_position in
    let record := Record_init row (snd compiled) in
    fetchone d query w = (Ok record, w') /\
    c = acquired_conn d (extend [QueryCompile query] w) /\
    cursor = conn_cursor_result d (Nat.pred (statement_position w)) /\
    trace w'
    = trace w
      ++ QueryCompile query
      :: acquire_events (session w)
      ++ [ConnCursor c;
          CursorExecute cursor (fst (fst compiled)) (Some (snd (fst compiled)));
          CursorFetchone cursor; CursorClose cursor]
      ++ release_events (connection_holders (session w)) (Some c) /\
    trace w' !! fetch_position = Some (CursorFetchone cursor) /\
    session w'
    = set_conn (if (connection_holders (session w) =? 0)%Z
                then None else Some c) (session w) /\
    heap w' = heap w /\
    (row = None ->
     forall key,
       __getitem__ record key = Raise (KeyError key) \/
       __getitem__ record key = Raise TypeError).
Proof.
  intros Hok.
  set (w1 := extend [QueryCompile query] w).
  set (w2 := after_acquire d w1).
  set (c := acquired_conn d w1).
  set (cursor := conn_cursor_result d (length (trace w2))).
  destruct (query_compile d query) as [[sql args] cols] eqn:Hq.
  set (w3 := extend [ConnCursor c] w2).
  set (w4 := extend [CursorExecute cursor sql (Some args)] w3).
  set (w5 := extend [CursorFetchone cursor] w4).
  set (w6 := extend [CursorClose cursor] w5).
  assert (L2 : length (trace w2) = Nat.pred (statement_position w)).
  { subst w2. rewrite length_trace_after_acquire, length_acquire_events.
    subst w1. rewrite length_trace_extend.
    unfold statement_position. simpl. destruct (conn (session w)); lia. }
  assert (L4 : length (trace w4) = S (statement_position w)).
  { subst w4 w3. rewrite !length_trace_extend, L2.
    unfold statement_position. simpl. lia. }
  assert (E1 : _compile d query w = (Ok (sql, args, cols), w1)).
  { unfold _compile. now rewrite (ext_ok d Hok), Hq. }
  assert (E2 : acquire_connection d w1 = (Ok c, w2))
    by apply (acquire_connection_ok d Hok).
  assert (E3 : ext d (ConnCursor c) (conn_cursor_result d) w2 = (Ok cursor, w3))
    by apply (ext_ok d Hok).
  assert (E4 : ext_ d (CursorExecute cursor sql (Some args)) w3 = (Ok tt, w4))
    by apply (ext_ok d Hok).
  assert (E5 : ext d (CursorFetchone cursor) (cursor_fetchone_result d) w4
               = (Ok (cursor_fetchone_result d (S (statement_position w))), w5)).
  { rewrite (ext_ok d Hok). now rewrite L4. }
  assert (E6 : ext_ d (CursorClose cursor) w5 = (Ok tt, w6))
    by apply (ext_ok d Hok).
  assert (E7 : release_connection d w6 = (Ok tt, after_release w6))
    by apply (release_connection_ok d Hok).
  assert (Htrace : trace (after_release w6)
                   = trace w
                     ++ QueryCompile query
                     :: acquire_events (session w)
                     ++ [ConnCursor c; CursorExecute cursor sql (Some args);
                         CursorFetchone cursor; CursorClose cursor]
                     ++ release_events (connection_holders (session w)) (Some c)).
  { unfold after_release, release_events.
    subst w6 w5 w4 w3 w2 c w1. unfold after_acquire, extend. simpl.
    replace (connection_holders (session w) + 1 - 1)
      with (connection_holders (session w)) by lia.
    rewrite <- !app_assoc. simpl. rewrite <- ?app_assoc. reflexivity. }
  exists (after_release w6), c, cursor.
  cbv zeta. cbn [fst snd].
  split; [|split; [|split; [|split; [|split; [|split; [|split]]]]]].
  - unfold fetchone, try_finally, bind, ret.
    now rewrite E1, E2, E3, E4, E5, E6, E7.
  - reflexivity.
  - subst cursor. now rewrite L2.
  - exact Htrace.
  - rewrite Htrace. unfold statement_position, acquire_events.
    destruct (conn (session w)); simpl.
    + rewrite lookup_app_r by lia.
      replace (S (length (trace w) + 2 + 1) - length (trace w))%nat
        with 4%nat by lia. reflexivity.
    + rewrite lookup_app_r by lia.
      replace (S (length (trace w) + 2 + 2) - length (trace w))%nat
        with 5%nat by lia. reflexivity.
  - subst w6 w5 w4 w3. rewrite !extend_extend. subst w2.
    change (session w) with (session w1).
    apply session_after_release_after_acquire.
  - reflexivity.
  - intros Hnone key. rewrite Hnone. unfold __getitem__. simpl.
    destruct (column_map _ !! key) as [[idx col]|]; auto.
Qed.

Lemma executemany_loop_raises cursor (query : Query) (pre : list Item) item post
    (p : nat) (w : World) :
  fails_only_at d p ->
  p = (length (trace w) + 3 * length pre + 2)%nat ->
  executemany_loop d cursor query (pre ++ item :: post) w
  = (Raise (DriverError p),
     extend (flat_map (item_events d cursor query) (pre ++ [item])) w).
Proof.
  intros Hf. unfold fails_only_at in Hf.
  revert w. induction pre as [|item0 pre IH]; intros w Hp; simpl in *.
  - unfold _compile, ext_, bind.
    rewrite ext_returns by (rewrite Hf; apply Nat.eqb_neq; lia).
    rewrite ext_returns
      by (rewrite Hf, length_trace_extend; apply Nat.eqb_neq; simpl; lia).
    unfold item_events.
    destruct (query_compile d (query_values d query item)) as [[sql args] cols].
    rewrite ext_raises
      by (rewrite Hf, !length_trace_extend; apply Nat.eqb_eq; simpl; lia).
    rewrite !length_trace_extend, !extend_extend. simpl.
    replace (length (trace w) + 1 + 1)%nat with p by lia. reflexivity.
  - unfold _compile, ext_, bind.
    rewrite ext_returns by (rewrite Hf; apply Nat.eqb_neq; lia).
    rewrite ext_returns
      by (rewrite Hf, length_trace_extend; apply Nat.eqb_neq; simpl; lia).
    unfold item_events at 1.
    destruct (query_compile d (query_values d query item0)) as [[sql args] cols].
    rewrite ext_returns
      by (rewrite Hf, !length_trace_extend; apply Nat.eqb_neq; simpl; lia).
    rewrite IH by (rewrite !length_trace_extend; simpl; lia).
    rewrite !extend_extend. reflexivity.
Qed.

(** X8.  When the statement of one value set is the one call that raises,
    [executemany] stops there: after taking the lease and creating one
    cursor it has, for each value set before that one and for that one, in
    the order of the list, applied the values to the query, compiled the
    result and executed it on the cursor; the value sets after it are
    neither compiled nor executed; then the cursor is closed, the lease
    released and the statement's error raised.  The number of holders is
    back to what it was, and the session keeps the leased connection
    exactly when that number is not zero; a session that held a connection
    exactly when it had holders, and had no negative number of them, is
    left as it was found. *)
Theorem executemany_stops_at_error (query : Query) (pre : list Item) item post
    (w : World) :
  fails_only_at d (execute_position w (length pre)) ->
  exists w' c cursor,
    executemany d query (pre ++ item :: post) w
    = (Raise (DriverError (execute_position w (length pre))), w') /\
    c = acquired_conn d w /\
    cursor = conn_cursor_result d (length (trace w ++ acquire_events (session w))) /\
    session w'
    = set_conn (if (connection_holders (session w) =? 0)%Z
                then None else Some c) (session w) /\
    (lease_invariant (session w) -> 0 <= connection_holders (session w) ->
     session w' = session w) /\
    heap w' = heap w /\
    events_since (length (trace w)) w'
    = acquire_events (session w)
      ++ [ConnCursor c]
      ++ flat_map (item_events d cursor query) (pre ++ [item])
      ++ [CursorClose cursor]
      ++ release_events (connection_holders (session w)) (Some c) /\
    let evs := events_since (length (trace w)) w' in
    count is_QueryCompile evs = S (length pre) /\
    count is_CursorExecute evs = S (length pre) /\
    count is_CursorClose evs = 1%nat /\
    count is_CallRelease evs = 1%nat.
Proof.
  intros Hf.
  set (p := execute_position w (length pre)) in *.
  assert (Hf' := Hf). unfold fails_only_at in Hf'.
  set (w2 := after_acquire d w).
  set (c := acquired_conn d w).
  set (cursor := conn_cursor_result d (length (trace w2))).
  set (w3 := extend [ConnCursor c] w2).
  set (w4 := extend (flat_map (item_events d cursor query) (pre ++ [item])) w3).
  set (w5 := extend [CursorClose cursor] w4).
  assert (L2 : length (trace w2)
               = (length (trace w)
                  + match conn (session w) with None => 2 | Some _ => 1 end)%nat).
  { subst w2. now rewrite length_trace_after_acquire, length_acquire_events. }
  assert (L3 : length (trace w3) = S (length (trace w2))).
  { subst w3. rewrite length_trace_extend. simpl. lia. }
  assert (Hlen : length (flat_map (item_events d cursor query) (pre ++ [item]))
                 = (3 * S (length pre))%nat).
  { clear. induction pre as [|i0 pre IH]; simpl.
    - destruct (item_events_shape d cursor query item) as (sql & args & ->).
      reflexivity.
    - destruct (item_events_shape d cursor query i0) as (sql & args & ->).
      simpl in *. rewrite IH. lia. }
  assert (L4 : length (trace w4) = S p).
  { subst w4. rewrite length_trace_extend, L3, L2, Hlen.
    subst p. unfold execute_position. lia. }
  assert (E2 : acquire_connection d w = (Ok c, w2)).
  { apply acquire_connection_returns. intros Hc.
    rewrite Hf'. apply Nat.eqb_neq. subst p. unfold execute_position.
    rewrite Hc. lia. }
  assert (E3 : ext d (ConnCursor c) (conn_cursor_result d) w2 = (Ok cursor, w3)).
  { apply ext_returns. rewrite Hf'. apply Nat.eqb_neq. rewrite L2.
    subst p. unfold execute_position. lia. }
  assert (E4 : executemany_loop d cursor query (pre ++ item :: post) w3
               = (Raise (DriverError p), w4)).
  { apply executemany_loop_raises; [assumption|].
    rewrite L3, L2. subst p. unfold execute_position. lia. }
  assert (E5 : ext_ d (CursorClose cursor) w4 = (Ok tt, w5)).
  { unfold ext_. rewrite ext_returns; [reflexivity|].
    rewrite Hf'. apply Nat.eqb_neq. lia. }
  assert (E6 : release_connection d w5 = (Ok tt, after_release w5)).
  { apply release_connection_returns. intros _.
    rewrite Hf'. apply Nat.eqb_neq. subst w5. rewrite length_trace_extend, L4.
    simpl. lia. }
  assert (Hevs : events_since (length (trace w)) (after_release w5)
                 = acquire_events (session w)
                   ++ [ConnCursor c]
                   ++ flat_map (item_events d cursor query) (pre ++ [item])
                   ++ [CursorClose cursor]
                   ++ release_events (connection_holders (session w)) (Some c)).
  { unfold events_since, after_release, release_events.
    subst w5 w4 w3 w2 c. unfold after_acquire, extend. simpl.
    replace (connection_holders (session w) + 1 - 1)
      with (connection_holders (session w)) by lia.
    rewrite <- !app_assoc. rewrite drop_app_length. simpl.
    rewrite <- ?app_assoc. reflexivity. }
  exists (after_release w5), c, cursor.
  split; [|split; [|split; [|split; [|split; [|split; [|split]]]]]].
  - unfold executemany, try_finally, bind. now rewrite E2, E3, E4, E5, E6.
  - reflexivity.
  - reflexivity.
  - subst w5 w4 w3. rewrite !extend_extend. subst w2.
    apply session_after_release_after_acquire.
  - intros Hinv Hpos. subst w5 w4 w3. rewrite !extend_extend. subst w2.
    apply after_release_after_acquire; assumption.
  - reflexivity.
  - exact Hevs.
  - cbv zeta. rewrite Hevs. rewrite !count_app.
    rewrite (count_loop_events d is_QueryCompile _ _ _ 1%nat),
      (count_loop_events d is_CursorExecute _ _ _ 1%nat),
      (count_loop_events d is_CursorClose _ _ _ 0%nat),
      (count_loop_events d is_CallRelease _ _ _ 0%nat) by reflexivity.
    rewrite length_app. unfold acquire_events, release_events. simpl.
    destruct (conn (session w)), (connection_holders (session w) =? 0)%Z;
      simpl; repeat split; lia.
Qed.

End QueryRuns.

(** ** The pool and the lease over whole runs *)

Section WholeRuns.

Context {Query Args Item Raw Value : Type}.
Variable d : @Driver Query Args Item Raw Value.
Hypothesis never_fails : forall k, fails d k = false.

Abbreviation World := (@World Query Args Item).
Abbreviation Run := (@Run Query Args Item).

Lemma after_release_invariant (w : World) :
  lease_invariant (session w) -> lease_invariant (session (after_release w)).
Proof.
  intros H. pose proof (release_preserves_invariant d never_fails w H) as H'.
  now rewrite release_connection_ok in H' by assumption.
Qed.

Lemma pool_calls_run (calls : list LeaseCall) (depth : nat) (w : World) :
  paired depth calls = true ->
  connection_holders (session w) = Z.of_nat depth ->
  lease_invariant (session w) ->
  count is_PoolAcquire (trace w)
  = (count is_PoolRelease (trace w) + if Nat.eqb depth 0 then 0 else 1)%nat ->
  forallb releases_a_connection (trace w) = true ->
  let w' := run_lease d calls w in
  count is_PoolAcquire (trace w')
  = (count is_PoolRelease (trace w')
     + if Nat.eqb (final_depth depth calls) 0 then 0 else 1)%nat /\
  forallb releases_a_connection (trace w') = true.
Proof.
  revert depth w.
  induction calls as [|[|] calls IH]; intros depth w Hp Hh Hinv Hcount Hall.
  - simpl. auto.
  - simpl in *. rewrite acquire_connection_ok by assumption. cbn [snd].
    apply (IH (S depth)); try assumption.
    + simpl. rewrite Hh. lia.
    + pose proof (acquire_preserves_invariant d never_fails w Hinv) as H.
      rewrite acquire_connection_ok in H by assumption. apply H. lia.
    + unfold after_acquire, acquire_events. simpl. rewrite !count_app, Hcount.
      unfold lease_invariant in Hinv.
      destruct (conn (session w)) eqn:Hc; simpl.
      * assert (0 < connection_holders (session w)) by (apply Hinv; discriminate).
        destruct depth; simpl; lia.
      * destruct depth; simpl; [lia|].
        assert (@None Conn <> None) by (apply Hinv; lia). contradiction.
    + unfold after_acquire, acquire_events. simpl. rewrite forallb_app, Hall.
      now destruct (conn (session w)).
  - simpl in *. destruct depth as [|depth]; [discriminate|].
    rewrite release_connection_ok by assumption. cbn [snd].
    apply (IH depth); try assumption.
    + unfold after_release. simpl. destruct (_ =? 0)%Z; simpl; lia.
    + now apply after_release_invariant.
    + unfold after_release, release_events. simpl. rewrite !count_app, Hcount.
      rewrite Hh. simpl.
      destruct (Z.of_nat (S depth) - 1 =? 0)%Z eqn:Hz; simpl.
      * apply Z.eqb_eq in Hz. destruct depth; simpl; lia.
      * apply Z.eqb_neq in Hz. destruct depth; simpl; lia.
    + unfold after_release, release_events. simpl. rewrite forallb_app, Hall.
      simpl. destruct (_ =? 0)%Z; [|reflexivity]. simpl.
      unfold lease_invariant in Hinv.
      destruct (conn (session w)); [reflexivity|].
      assert (@None Conn <> None) by (apply Hinv; lia). contradiction.
Qed.

(** X9.  On a new session, when the pool does not raise and each release is
    paired with an earlier acquire: the pool is asked for a connection
    exactly when a first holder arrives and given it back exactly when the
    last holder leaves.  So at every point the pool's acquires exceed its
    releases by one while a lease is held and equal them otherwise, and
    [pool.release] is always handed a connection, never [None]. *)
Theorem pool_calls_paired (calls : list LeaseCall) (rollback_isolation : bool) :
  paired 0 calls = true ->
  let w' := run_lease d calls (Session_init rollback_isolation) in
  count is_PoolAcquire (trace w')
  = (count is_PoolRelease (trace w')
     + if Nat.eqb (final_depth 0 calls) 0 then 0 else 1)%nat /\
  forallb releases_a_connection (trace w') = true.
Proof.
  intros Hp. apply (pool_calls_run calls 0); try assumption.
  - now destruct rollback_isolation.
  - destruct rollback_isolation; unfold lease_invariant; simpl;
      (split; [congruence|lia]).
  - now destruct rollback_isolation.
  - now destruct rollback_isolation.
Qed.

End WholeRuns.

Lemma pool_calls_paired_witness :
  let w' := run_lease ok_driver [Acquire; Acquire; Release; Release; Acquire]
              fresh_session in
  count is_PoolAcquire (trace w') = (count is_PoolRelease (trace w') + 1)%nat /\
  forallb releases_a_connection (trace w') = true.
Proof.
  apply (pool_calls_paired ok_driver (fun _ => eq_refl)
           [Acquire; Acquire; Release; Release; Acquire] false eq_refl).
Defined.

(** ** One lease per open transaction *)

Section OpenTransactions.

Context {Query Args Item Raw Value : Type}.
Variable d : @Driver Query Args Item Raw Value.
Hypothesis never_fails : forall k, fails d k = false.

Abbreviation World := (@World Query Args Item).
Abbreviation Run := (@Run Query Args Item).

Lemma count_active_snoc (ps : list Phase) :
  count_active (ps ++ [Unstarted]) = count_active ps.
Proof. induction ps as [|[| |] ps IH]; simpl; congruence. Qed.

Lemma count_active_start (ps : list Phase) t :
  ps !! t = Some Unstarted ->
  count_active (<[t := Active]> ps) = S (count_active ps).
Proof.
  revert t. induction ps as [|p ps IH]; intros [|t] H; simpl in *;
    try discriminate.
  - now injection H as ->.
  - rewrite (IH t H). now destruct p.
Qed.

Lemma count_active_finish (ps : list Phase) t :
  ps !! t = Some Active ->
  count_active ps = S (count_active (<[t := Terminated]> ps)).
Proof.
  revert t. induction ps as [|p ps IH]; intros [|t] H; simpl in *;
    try discriminate.
  - now injection H as ->.
  - rewrite (IH t H). now destruct p.
Qed.

Lemma leases_match_step (r : Run) c :
  run_invariant r -> leases_match r -> allowed c (phases r) = true ->
  leases_match (step d r c).
Proof.
  intros (Hlen & Hun & Hopen) (Hh & Hinv & Hact) Hc.
  destruct c as [|t0|t0|t0]; simpl in Hc.
  - (* New *)
    unfold leases_match. simpl. rewrite count_active_snoc.
    split; [assumption|]. split; [assumption|].
    intros t Ht.
    destruct (decide (t < length (phases r))%nat) as [Hin|Hout].
    + rewrite lookup_app_l in Ht by assumption.
      destruct (Hact t Ht) as (tx & c & Htx & Hrest).
      exists tx, c. split; [|assumption].
      rewrite lookup_app_l; [assumption|]. eapply lookup_lt_Some; eauto.
    + apply lookup_lt_Some in Ht as Hl. rewrite length_app in Hl. simpl in Hl.
      assert (t = length (phases r)) as -> by lia.
      rewrite lookup_app_r in Ht by lia. rewrite Nat.sub_diag in Ht.
      discriminate.
  - (* Start *)
    destruct (phases r !! t0) as [[| |]|] eqn:Hp0; try discriminate.
    destruct (roots_lookup_heap _ _ _ (Hun _ Hp0)) as (tx & Htx & Hroot).
    pose proof (lookup_lt_Some _ _ _ Htx) as Hlt.
    unfold leases_match, step. simpl.
    rewrite (count_active_start _ _ Hp0).
    destruct (has_root_transaction (session (world r))) eqn:Hflag.
    + rewrite (start_nested_world d never_fails t0 tx _ Htx Hroot Hflag). simpl.
      split; [lia|]. split.
      { unfold lease_invariant. simpl. split; [lia | discriminate]. }
      intros t Ht. apply list_lookup_insert_Some in Ht as [(<- & _ & _)|[Hne Ht]].
      * eexists _, _. rewrite list_lookup_insert_eq
          by (rewrite ?length_insert; assumption).
        split; [reflexivity|]. simpl. eauto.
      * destruct (Hact t Ht) as (tx' & c & Htx' & Hrest).
        exists tx', c. split; [|assumption].
        now rewrite !list_lookup_insert_ne by assumption.
    + rewrite (start_root_world d never_fails t0 tx _ Htx Hroot Hflag). simpl.
      split; [lia|]. split.
      { unfold lease_invariant. simpl. split; [lia | discriminate]. }
      intros t Ht. apply list_lookup_insert_Some in Ht as [(<- & _ & _)|[Hne Ht]].
      * eexists _, _. rewrite list_lookup_insert_eq
          by (rewrite ?length_insert; assumption).
        split; [reflexivity|]. simpl. eauto.
      * destruct (Hact t Ht) as (tx' & c & Htx' & Hrest).
        exists tx', c. split; [|assumption].
        now rewrite !list_lookup_insert_ne by assumption.
  - (* Commit *)
    destruct (phases r !! t0) as [[| |]|] eqn:Hp0; try discriminate.
    destruct (Hact t0 Hp0) as (tx & c & Htx & Hconn & Hsp).
    pose proof (count_active_finish _ _ Hp0) as Hcount.
    assert (Hworld : exists w0,
      commit d t0 (world r) = (Ok tt, after_release w0) /\
      heap w0 = heap (world r) /\
      conn (session w0) = conn (session (world r)) /\
      connection_holders (session w0) = connection_holders (session (world r))).
    { destruct (is_root tx) eqn:Hroot.
      - rewrite (commit_root_world d never_fails t0 tx c _ Htx Hroot Hconn).
        eexists. split; [reflexivity|]. repeat split.
      - destruct Hsp as [[=]|[sp Hsp]].
        rewrite (commit_nested_world d never_fails t0 tx c sp _ Htx Hroot Hconn Hsp).
        eexists. split; [reflexivity|]. repeat split. }
    destruct Hworld as (w0 & Hcommit & Hheap & Hc0 & Hh0).
    unfold leases_match, step. simpl. rewrite Hcommit. simpl.
    split; [|split].
    + unfold after_release. simpl. destruct (_ =? 0)%Z; simpl; lia.
    + apply (after_release_invariant d never_fails).
      unfold lease_invariant in *. now rewrite Hc0, Hh0.
    + intros t Ht. apply list_lookup_insert_Some in Ht as [(_ & [=] & _)|[Hne Ht]].
      destruct (Hact t Ht) as (tx' & c' & Htx' & Hrest).
      exists tx', c'. split; [|assumption].
      unfold after_release. simpl. now rewrite Hheap.
  - (* Rollback *)
    destruct (phases r !! t0) as [[| |]|] eqn:Hp0; try discriminate.
    destruct (Hact t0 Hp0) as (tx & c & Htx & Hconn & Hsp).
    pose proof (count_active_finish _ _ Hp0) as Hcount.
    assert (Hworld : exists w0,
      rollback d t0 (world r) = (Ok tt, after_release w0) /\
      heap w0 = heap (world r) /\
      conn (session w0) = conn (session (world r)) /\
      connection_holders (session w0) = connection_holders (session (world r))).
    { destruct (is_root tx) eqn:Hroot.
      - rewrite (rollback_root_world d never_fails t0 tx c _ Htx Hroot Hconn).
        eexists. split; [reflexivity|]. repeat split.
      - destruct Hsp as [[=]|[sp Hsp]].
        rewrite (rollback_nested_world d never_fails t0 tx c sp _ Htx Hroot Hconn Hsp).
        eexists. split; [reflexivity|]. repeat split. }
    destruct Hworld as (w0 & Hrollback & Hheap & Hc0 & Hh0).
    unfold leases_match, step. simpl. rewrite Hrollback. simpl.
    split; [|split].
    + unfold after_release. simpl. destruct (_ =? 0)%Z; simpl; lia.
    + apply (after_release_invariant d never_fails).
      unfold lease_invariant in *. now rewrite Hc0, Hh0.
    + intros t Ht. apply list_lookup_insert_Some in Ht as [(_ & [=] & _)|[Hne Ht]].
      destruct (Hact t Ht) as (tx' & c' & Htx' & Hrest).
      exists tx', c'. split; [|assumption].
      unfold after_release. simpl. now rewrite Hheap.
Qed.

Lemma leases_match_run (calls : list Call) (r : Run) :
  run_invariant r -> leases_match r -> protocol (phases r) calls = true ->
  leases_match (run_calls d calls r).
Proof.
  revert r. induction calls as [|c calls IH]; intros r Hinv Hm Hp; [assumption|].
  simpl in Hp. apply andb_true_iff in Hp as [Hc Hp]. simpl.
  apply IH; [now apply run_invariant_step | now apply leases_match_step | assumption].
Qed.

(** X10.  When no collaborator raises, along every run on one session that
    follows the life-cycle contract, the session counts exactly one holder
    per transaction that is started and not yet terminated; so it keeps a
    connection exactly while some transaction is open, and gives it back to
    the pool when the last one ends. *)
Theorem one_lease_per_open_transaction (rollback_isolation : bool)
    (calls : list Call) :
  protocol (phases (initial rollback_isolation : Run)) calls = true ->
  let r := run_calls d calls (initial rollback_isolation) in
  connection_holders (session (world r)) = Z.of_nat (count_active (phases r)) /\
  (conn (session (world r)) = None <-> count_active (phases r) = 0%nat).
Proof.
  intros Hp r.
  assert (Hm : leases_match r).
  { apply leases_match_run; [apply run_invariant_initial | | assumption].
    destruct rollback_isolation; unfold leases_match, lease_invariant; simpl;
      (split; [reflexivity|]); (split; [split; [congruence|lia]|]);
      intros [|t]; simpl; discriminate. }
  destruct Hm as (Hh & Hinv & _). split; [assumption|].
  unfold lease_invariant in Hinv. rewrite Hh in Hinv.
  destruct (conn (session (world r))).
  - split; [discriminate|]. intros Hz.
    assert (0 < Z.of_nat (count_active (phases r))) by (apply Hinv; discriminate).
    lia.
  - split; [|reflexivity]. intros _.
    destruct (count_active (phases r)); [reflexivity|].
    assert (@None Conn <> None) by (apply Hinv; lia). contradiction.
Qed.

End OpenTransactions.

Lemma one_lease_per_open_transaction_witness :
  let r := run_calls ok_driver [New; New; Start 0; Start 1; Commit 1]%nat
             (initial false) in
  connection_holders (session (world r)) = 1 /\ conn (session (world r)) <> None.
Proof.
  destruct (one_lease_per_open_transaction ok_driver (fun _ => eq_refl) false
              [New; New; Start 0; Start 1; Commit 1]%nat eq_refl) as [Hh Hc].
  split; [exact Hh|]. intros Hnone. apply Hc in Hnone. discriminate Hnone.
Defined.

(** ** When the pool or [begin()] raises *)

Section PoolRaises.

Context {Query Args Item Raw Value : Type}.
Variable d : @Driver Query Args Item Raw Value.

Abbreviation World := (@World Query Args Item).

(** X11.  On an idle session (no holder, no connection), when [pool.acquire()]
    raises: [acquire_connection] raises with one holder counted and no
    connection stored.  The count is then one too high for good: a later
    acquire and release in which nothing raises take a connection from the
    pool, and the release, finding one holder left, does not give it
    back. *)
Theorem failed_pool_acquire_sticks (w : World) :
  conn (session w) = None -> connection_holders (session w) = 0 ->
  fails d (S (length (trace w))) = true ->
  fails d (S (length (trace w) + 2)) = false ->
  exists w1 w2 w3 c,
    acquire_connection d w = (Raise (DriverError (S (length (trace w)))), w1) /\
    connection_holders (session w1) = 1 /\ conn (session w1) = None /\
    acquire_connection d w1 = (Ok c, w2) /\
    release_connection d w2 = (Ok tt, w3) /\
    connection_holders (session w3) = 1 /\ conn (session w3) = Some c /\
    events_since (length (trace w)) w3
    = [CallAcquire; PoolAcquire; CallAcquire; PoolAcquire; CallRelease].
Proof.
  intros Hc Hh Hfail Hok.
  set (w1 := extend [CallAcquire; PoolAcquire]
               (set_session (set_connection_holders 1 (session w)) w)).
  assert (E1 : acquire_connection d w
               = (Raise (DriverError (S (length (trace w)))), w1)).
  { unfold acquire_connection. unfold_monad. simpl. rewrite Hc, Hh. simpl.
    rewrite length_app. simpl.
    replace (length (trace w) + 1)%nat with (S (length (trace w))) by lia.
    rewrite Hfail. unfold w1, extend, log_event, set_session. simpl.
    now rewrite <- app_assoc. }
  assert (Hc1 : conn (session w1) = None) by exact Hc.
  assert (L1 : length (trace w1) = (length (trace w) + 2)%nat).
  { unfold w1. now rewrite length_trace_extend. }
  assert (E2 : acquire_connection d w1 = (Ok (acquired_conn d w1), after_acquire d w1)).
  { apply acquire_connection_returns. intros _. now rewrite L1. }
  assert (E3 : release_connection d (after_acquire d w1)
               = (Ok tt, after_release (after_acquire d w1))).
  { apply release_connection_returns. simpl. lia. }
  exists w1, (after_acquire d w1), (after_release (after_acquire d w1)),
    (acquired_conn d w1).
  split; [exact E1|]. split; [reflexivity|]. split; [exact Hc1|].
  split; [exact E2|]. split; [exact E3|].
  unfold after_release, after_acquire, release_events, acquire_events,
    events_since. simpl. rewrite Hc. simpl.
  split; [reflexivity|]. split; [reflexivity|].
  rewrite <- !app_assoc. now rewrite drop_app_length.
Qed.

(** X12.  When the [begin()] of a transaction that becomes the root raises,
    [start] raises with the session already marked as having a root
    transaction, the transaction marked as root, and the lease still
    held. *)
Theorem failed_begin_keeps_root_flag t tx (w : World) :
  heap w !! t = Some tx -> is_root tx = false ->
  has_root_transaction (session w) = false ->
  fails_only_at d (begin_position w) ->
  exists w',
    start d t w = (Raise (DriverError (begin_position w)), w') /\
    has_root_transaction (session w') = true /\
    connection_holders (session w') = connection_holders (session w) + 1 /\
    (exists tx', heap w' !! t = Some tx' /\ is_root tx' = true) /\
    count is_CallRelease (events_since (length (trace w)) w') = 0%nat.
Proof.
  intros Ht Hroot Hflag Hf. unfold fails_only_at in Hf.
  pose proof (lookup_lt_Some _ _ _ Ht) as Hlt.
  set (w0 := set_heap (<[t := set_is_root true tx]> (heap w))
               (set_session (set_has_root_transaction true (session w)) w)).
  assert (Hp : begin_position w
               = (length (trace w)
                  + match conn (session w) with None => 2 | Some _ => 1 end)%nat).
  { reflexivity. }
  assert (E2 : acquire_connection d w0 = (Ok (acquired_conn d w0), after_acquire d w0)).
  { apply acquire_connection_returns. intros Hc. rewrite Hf.
    apply Nat.eqb_neq. rewrite Hp. unfold w0 in *. simpl in *. rewrite Hc. lia. }
  set (c := acquired_conn d w0) in *.
  set (w2 := set_heap (<[t := set_tx_conn c (set_is_root true tx)]> (heap w0))
               (after_acquire d w0)).
  assert (L2 : length (trace w2) = begin_position w).
  { unfold w2. simpl. rewrite length_app, length_acquire_events, Hp.
    unfold w0. simpl. destruct (conn (session w)); lia. }
  exists (extend [ConnBegin c] w2).
  split; [|split; [reflexivity|split; [reflexivity|split]]].
  - unfold start, bind, get_session, modify_session, modify_tx, get_tx, ret.
    rewrite Hflag. simpl. rewrite Ht. fold w0. rewrite E2. simpl.
    rewrite list_lookup_insert_eq by assumption.
    change (set_heap (<[t:=set_tx_conn c (set_is_root true tx)]>
                        (<[t:=set_is_root true tx]> (heap w)))
              (after_acquire d w0)) with w2.
    assert (Hw2 : heap w2 !! t = Some (set_tx_conn c (set_is_root true tx))).
    { unfold w2. simpl. now rewrite list_lookup_insert_eq
        by (rewrite ?length_insert; assumption). }
    rewrite Hw2. simpl. unfold attr, ret, ext_.
    rewrite ext_raises by (rewrite Hf, L2; apply Nat.eqb_refl).
    now rewrite L2.
  - exists (set_tx_conn c (set_is_root true tx)). split; [|reflexivity].
    unfold w2. simpl.
    now rewrite list_lookup_insert_eq by (rewrite ?length_insert; assumption).
  - unfold events_since, w2, after_acquire, acquire_events. simpl.
    rewrite <- !app_assoc, drop_app_length.
    destruct (conn (session w)); reflexivity.
Qed.

End PoolRaises.

(** ** Savepoint names *)

(** X13.  Every savepoint name is 56 characters long (under the 64 that MySQL
    allows an identifier) and starts with [STARLETTE_SAVEPOINT_]. *)
Theorem savepoint_name_shape (uuid : N) :
  String.length (make_savepoint_name uuid) = 56%nat /\
  String.prefix "STARLETTE_SAVEPOINT_" (make_savepoint_name uuid) = true.
Proof.
  unfold make_savepoint_name, uuid_str.
  pose proof (hex_digits_length 32 uuid) as H.
  generalize dependent (hex_digits 32 uuid). intros h H.
  do 32 (destruct h as [|? h]; [discriminate H | simpl in H; apply eq_add_S in H]).
  destruct h; [|discriminate H].
  split; reflexivity.
Qed.

(** ** MySQLBackend *)

Section BackendFacts.

Context {Query Args Item : Type}.
Variable bd : BackendDriver.
Hypothesis backend_never_fails : forall k, backend_fails bd k = false.

Abbreviation not_running :=
  (AssertionError "DatabaseBackend is not running").

(** X14.  The life of a backend, when no collaborator raises.  Before [connect],
    [session] and [disconnect] fail their assertion and change nothing.
    After [connect] the backend has a pool, and [session] returns a new
    session on that pool with the [pyformat] dialect.  [disconnect] closes
    that pool, waits for it, and leaves the backend not running: [session]
    and a second [disconnect] fail their assertion again. *)
Theorem backend_life_cycle (url : DatabaseURL) (rollback_isolation : bool) :
  let bw0 := new_backend url in
  @Backend_session Query Args Item rollback_isolation bw0 = BackendRaise not_running /\
  disconnect bd bw0 = (BackendRaise not_running, bw0) /\
  exists bw1 p,
    connect bd bw0 = (BackendOk tt, bw1) /\
    pool (backend bw1) = Some p /\
    @Backend_session Query Args Item rollback_isolation bw1
    = BackendOk (p, PyMySQLDialect "pyformat", Session_init rollback_isolation) /\
    exists bw2,
      disconnect bd bw1 = (BackendOk tt, bw2) /\
      pool (backend bw2) = None /\
      backend_trace bw2 = backend_trace bw1 ++ [PoolClose p; PoolWaitClosed p] /\
      @Backend_session Query Args Item rollback_isolation bw2
      = BackendRaise not_running /\
      disconnect bd bw2 = (BackendRaise not_running, bw2).
Proof.
  intros bw0. split; [reflexivity|]. split; [reflexivity|].
  unfold connect, disconnect, Backend_session. simpl.
  destruct (username_given (username url)) as [user|]; simpl;
    rewrite ?backend_never_fails; simpl.
  - eexists _, _. split; [reflexivity|]. simpl. split; [reflexivity|].
    split; [reflexivity|]. rewrite !backend_never_fails.
    eexists. split; [reflexivity|]. simpl. repeat split.
  - eexists _, _. split; [reflexivity|]. simpl. split; [reflexivity|].
    split; [reflexivity|]. rewrite !backend_never_fails.
    eexists. split; [reflexivity|]. simpl. repeat split.
Qed.

(** X15.  What [connect] asks of [aiomysql.create_pool], when no collaborator
    raises: the port of the URL, or 3306 when the URL has none or has port
    0; the user of the URL, or, when the URL has none or an empty one, the
    name [getpass.getuser()] returns, which is then the only other call
    made.  A pool the backend already had is replaced without being
    closed. *)
Theorem connect_arguments (bw : BackendWorld) :
  let db := database_url (backend bw) in
  exists bw' p prt user,
    connect bd bw = (BackendOk tt, bw') /\
    pool (backend bw') = Some p /\
    (port db = None \/ port db = Some 0 -> prt = 3306) /\
    (forall n, port db = Some n -> n <> 0 -> prt = n) /\
    (forall name, username db = Some name -> name <> ""%string ->
       user = name /\
       backend_trace bw'
       = backend_trace bw
         ++ [CreatePool (hostname db) prt user (password db) (database db)]) /\
    (username db = None \/ username db = Some ""%string ->
       user = getuser_result bd (length (backend_trace bw)) /\
       backend_trace bw'
       = backend_trace bw
         ++ [GetUser;
             CreatePool (hostname db) prt user (password db) (database db)]).
Proof.
  intros db. unfold connect. fold db.
  assert (Hport : (port db = None \/ port db = Some 0 ->
                   port_or_default (port db) = 3306) /\
                  (forall n, port db = Some n -> n <> 0 ->
                   port_or_default (port db) = n)).
  { unfold port_or_default. split.
    - intros [-> | ->]; reflexivity.
    - intros n -> Hn. apply Z.eqb_neq in Hn. now rewrite Hn. }
  destruct Hport as [Hp1 Hp2].
  destruct (username db) as [[|a name]|] eqn:Hu; simpl;
    rewrite ?backend_never_fails; simpl; rewrite ?backend_never_fails.
  - eexists _, _, _, _. split; [reflexivity|]. simpl.
    split; [reflexivity|]. split; [exact Hp1|]. split; [exact Hp2|]. split.
    + intros name [= <-] Hne. contradiction.
    + intros _. split; [reflexivity|]. now rewrite <- app_assoc.
  - eexists _, _, _, _. split; [reflexivity|]. simpl.
    split; [reflexivity|]. split; [exact Hp1|]. split; [exact Hp2|]. split.
    + intros name' [= <-] _. split; reflexivity.
    + intros [[=]|[=]].
  - eexists _, _, _, _. split; [reflexivity|]. simpl.
    split; [reflexivity|]. split; [exact Hp1|]. split; [exact Hp2|]. split.
    + intros name [=].
    + intros _. split; [reflexivity|]. now rewrite <- app_assoc.
Qed.

End BackendFacts.

(** ** Instances of the further statements *)

Lemma driver_failing_at_only (p : nat) : fails_only_at (driver_failing_at [p]) p.
Proof. intros k. simpl. apply orb_false_r. Qed.

Lemma fresh_session_invariant : lease_invariant (session fresh_session).
Proof. unfold lease_invariant. simpl. split; [congruence | lia]. Qed.

Lemma statement_error_cleanup_witness :
  exists w' c cursor,
    execute (driver_failing_at [4%nat]) users_query fresh_session
    = (Raise (DriverError 4), w') /\
    events_since 0 w'
    = [QueryCompile users_query; CallAcquire; PoolAcquire; ConnCursor c;
       CursorExecute cursor "SELECT id, name FROM users" (Some []);
       CursorClose cursor; CallRelease; PoolRelease (Some c)] /\
    session w' = session fresh_session.
Proof.
  destruct (statement_error_cleanup (driver_failing_at [4%nat]) users_query
              fresh_session (driver_failing_at_only 4))
    as (w' & c & cursor & Hexecute & _ & _ & _ & _ & _ & Hsession & _ & Hevs).
  exists w', c, cursor. split; [exact Hexecute|]. split; [exact Hevs|].
  exact (Hsession fresh_session_invariant (Z.le_refl 0)).
Defined.

Lemma fetchall_returns_witness :
  exists w' c cursor,
    fetchall two_users_driver users_query fresh_session
    = (Ok [Record_init (Some [PyInt 1; PyStr "alice"]) users_columns;
           Record_init (Some [PyInt 2; PyStr "bob"]) users_columns], w') /\
    events_since 0 w'
    = [QueryCompile users_query; CallAcquire; PoolAcquire; ConnCursor c;
       CursorExecute cursor "SELECT id, name FROM users" (Some []);
       CursorFetchall cursor; CursorClose cursor;
       CallRelease; PoolRelease (Some c)] /\
    session w' = session fresh_session.
Proof.
  destruct (fetchall_returns two_users_driver users_query fresh_session
              (fun _ => eq_refl))
    as (w' & c & cursor & rows & Hfetch & Hrows & _ & _ & _ & Hsession & _ & Hevs).
  exists w', c, cursor. split; [|split; [exact Hevs|]].
  - rewrite Hfetch, Hrows. reflexivity.
  - exact (Hsession fresh_session_invariant (Z.le_refl 0)).
Defined.

Lemma fetchone_no_row_witness :
  exists w' c cursor,
    fetchone ok_driver users_query fresh_session
    = (Ok (Record_init None users_columns), w') /\
    trace w'
    = [QueryCompile users_query; CallAcquire; PoolAcquire; ConnCursor c;
       CursorExecute cursor "SELECT id, name FROM users" (Some []);
       CursorFetchone cursor; CursorClose cursor;
       CallRelease; PoolRelease (Some c)] /\
    __getitem__ (Record_init None users_columns) "name" = Raise TypeError.
Proof.
  destruct (fetchone_no_row ok_driver users_query fresh_session (fun _ => eq_refl))
    as (w' & c & cursor & Hrun & _ & _ & Htrace & _ & _ & _ & Hlater).
  exists w', c, cursor. split; [exact Hrun|]. split; [exact Htrace|].
  destruct (Hlater eq_refl "name") as [H|H]; [discriminate H | exact H].
Defined.

Lemma executemany_stops_at_error_witness :
  exists w' c cursor,
    executemany (driver_failing_at [8%nat]) users_query
      ([[PyInt 1]] ++ [PyInt 2] :: [[PyInt 3]]) fresh_session
    = (Raise (DriverError 8), w') /\
    events_since 0 w'
    = [CallAcquire; PoolAcquire; ConnCursor c;
       QueryValues users_query [PyInt 1];
       QueryCompile ("SELECT id, name FROM users", [PyInt 1]);
       CursorExecute cursor "SELECT id, name FROM users" (Some [PyInt 1]);
       QueryValues users_query [PyInt 2];
       QueryCompile ("SELECT id, name FROM users", [PyInt 2]);
       CursorExecute cursor "SELECT id, name FROM users" (Some [PyInt 2]);
       CursorClose cursor; CallRelease; PoolRelease (Some c)] /\
    session w' = session fresh_session.
Proof.
  destruct (executemany_stops_at_error (driver_failing_at [8%nat]) users_query
              [[PyInt 1]] [PyInt 2] [[PyInt 3]] fresh_session
              (driver_failing_at_only 8))
    as (w' & c & cursor & Hrun & _ & _ & _ & Hsession & _ & Hevs & _).
  exists w', c, cursor. split; [exact Hrun|]. split; [exact Hevs|].
  exact (Hsession fresh_session_invariant (Z.le_refl 0)).
Defined.

Lemma failed_pool_acquire_sticks_witness :
  exists w1 w2 w3 c,
    acquire_connection (driver_failing_at [1%nat]) fresh_session
    = (Raise (DriverError 1), w1) /\
    acquire_connection (driver_failing_at [1%nat]) w1 = (Ok c, w2) /\
    release_connection (driver_failing_at [1%nat]) w2 = (Ok tt, w3) /\
    conn (session w3) = Some c.
Proof.
  destruct (failed_pool_acquire_sticks (driver_failing_at [1%nat]) fresh_session
              eq_refl eq_refl eq_refl eq_refl)
    as (w1 & w2 & w3 & c & H1 & _ & _ & H2 & H3 & _ & Hc & _).
  exists w1, w2, w3, c. auto.
Defined.

Lemma failed_begin_keeps_root_flag_witness :
  exists w',
    start (driver_failing_at [2%nat]) 0%nat one_transaction
    = (Raise (DriverError 2), w') /\
    has_root_transaction (session w') = true.
Proof.
  destruct (failed_begin_keeps_root_flag (driver_failing_at [2%nat]) 0%nat
              Transaction_init one_transaction eq_refl eq_refl eq_refl
              (driver_failing_at_only 2))
    as (w' & Hstart & Hflag & _).
  exists w'. split; [exact Hstart | exact Hflag].
Defined.

Lemma backend_life_cycle_witness :
  exists bw1 bw2,
    connect ok_backend_driver (new_backend bare_url) = (BackendOk tt, bw1) /\
    disconnect ok_backend_driver bw1 = (BackendOk tt, bw2) /\
    disconnect ok_backend_driver bw2
    = (BackendRaise (AssertionError "DatabaseBackend is not running"), bw2).
Proof.
  destruct (@backend_life_cycle ExQuery (list pyval) (list pyval)
              ok_backend_driver (fun _ => eq_refl) bare_url false)
    as (_ & _ & bw1 & p & Hconnect & _ & _ & bw2 & Hdisconnect & _ & _ & _ & Hagain).
  exists bw1, bw2. auto.
Defined.

Lemma connect_arguments_witness :
  exists bw',
    connect ok_backend_driver (new_backend bare_url) = (BackendOk tt, bw') /\
    backend_trace bw'
    = [GetUser; CreatePool (Some "localhost") 3306 "app" None (Some "test")].
Proof.
  destruct (connect_arguments ok_backend_driver (fun _ => eq_refl)
              (new_backend bare_url))
    as (bw' & p & prt & user & Hconnect & _ & Hport & _ & _ & Huser).
  exists bw'. split; [exact Hconnect|].
  destruct (Huser (or_introl eq_refl)) as [-> ->].
  rewrite (Hport (or_introl eq_refl)). reflexivity.
Defined.
